(** * socket-101: the WebSocket engine of [02-websocket-using-tcp/tcp]

    A shallow embedding of the Go package [tcp] (server.go and client.go):
    the frame codec ([ReadFrame], [sendFrame], [Client.sendFrame]), the
    handshake ([handleWebSocket], [generateWebSocketAcceptKey],
    [Client.Handshake]) and the client's reassembly and fragmentation loops
    ([Client.ReadFullMessage], [Client.sendFragmentedMessage]); and of the
    line echo of [01-understanding-tcp-udp/tcp] ([handleConnection]).

    Conventions.
    - A Go [byte] is [Init.Byte.byte]; [[]byte] is [list byte]; a nil slice and
      an empty slice are both [[]].  A Go [string] is a Rocq [string].
    - [uint64] is [Z] in [0, 2^64); conversions to narrower types are written
      with their truncation.
    - A [net.Conn] is a record holding the bytes still to be read, the bytes
      written so far, and whether writes fail.  The peer has sent all of
      [inbound] and then closed: a read past its end is [io.EOF], never a
      wait, and [conn.Read] is handed everything that is there.  The bytes
      [crypto/rand] delivers travel with the connection.
    - A panic is an outcome of its own; so is a loop cut short by the bound
      its embedding needs, which the section on loop bounds shows is never
      the outcome of a function of the package.  Memory is unbounded: of
      [make] only the range check on the length is kept.
    - [http.ReadRequest], [json.Unmarshal], [crypto/sha1] and
      [encoding/base64] belong to Go's standard library: the first two are
      inputs, the last two are written out after FIPS 180-4 and RFC 4648.
    - [log.*] calls have no effect on the connection and are left out. *)

From Stdlib Require Import String Ascii Strings.Byte.
From Stdlib Require Import ZArith List Lia Bool.
From coqutil Require Import Byte Z.bitblast.
Import ListNotations.
Local Open Scope string_scope.
Local Open Scope Z_scope.
Local Open Scope list_scope.

(** ** Bytes *)

Definition byte_or (a b : byte) : byte :=
  byte.of_Z (Z.lor (byte.unsigned a) (byte.unsigned b)).

Notation "a .| b" := (byte_or a b) (at level 50, left associativity).
Notation "a .& b" := (byte.and a b) (at level 40, left associativity).
Notation "a .^ b" := (byte.xor a b) (at level 50, left associativity).

(** Go's [[]byte(s)] and [string(b)]. *)
Definition bytes_of (s : string) : list byte := list_byte_of_string s.
Definition string_of (b : list byte) : string := string_of_list_byte b.

(** ** encoding/binary, BigEndian *)

Module BigEndian.

(** [binary.BigEndian.UintN]: the bytes read most significant first. *)
Fixpoint combine (acc : Z) (bs : list byte) : Z :=
  match bs with
  | [] => acc
  | b :: bs' => combine (Z.lor (Z.shiftl acc 8) (byte.unsigned b)) bs'
  end.

(** [binary.BigEndian.PutUintN] on an [n]-byte buffer. *)
Fixpoint split (n : nat) (v : Z) : list byte :=
  match n with
  | O => []
  | S m => byte.of_Z (Z.shiftr v (8 * Z.of_nat m)) :: split m v
  end.

Definition Uint16 (b : list byte) : Z := combine 0 (firstn 2 b).
Definition Uint64 (b : list byte) : Z := combine 0 (firstn 8 b).
Definition PutUint16 (v : Z) : list byte := split 2 v.
Definition PutUint64 (v : Z) : list byte := split 8 v.

End BigEndian.

(** Truncating conversions [uint16(x)] and [uint64(x)]. *)
Definition uint16 (x : Z) : Z := x mod 2 ^ 16.
Definition uint64 (x : Z) : Z := x mod 2 ^ 64.

(** The largest [int] of a 64-bit platform: [make([]byte, n)] panics above. *)
Definition maxInt : Z := 2 ^ 63 - 1.

(** ** Errors, results and the connection *)

Inductive error : Type :=
| EOF                                (* io.EOF *)
| ErrUnexpectedEOF                   (* io.ErrUnexpectedEOF *)
| ErrWrite                           (* a failed conn.Write *)
| ErrRand                            (* a failed crypto/rand read *)
| Errorf (msg : string).             (* fmt.Errorf *)

(** [err.Error()], as [%v] prints it. *)
Definition Error (e : error) : string :=
  match e with
  | EOF => "EOF"
  | ErrUnexpectedEOF => "unexpected EOF"
  | ErrWrite => "write: broken pipe"
  | ErrRand => "rand: no entropy"
  | Errorf msg => msg
  end.

(** A Go [(T, error)] return. *)
Inductive result (T : Type) : Type :=
| Val (x : T)
| Err (e : error).
Arguments Val {T} x.
Arguments Err {T} e.

Record Conn : Type := mkConn {
  inbound : list byte;     (* what the peer has sent and is not read yet *)
  written : list byte;     (* every byte handed to a successful Write *)
  wbroken : bool;          (* Write fails *)
  closed  : bool;          (* Close was called *)
  entropy : list byte      (* what crypto/rand will deliver, in order *)
}.

Definition set_inbound (c : Conn) (bs : list byte) : Conn :=
  mkConn bs (written c) (wbroken c) (closed c) (entropy c).
Definition set_written (c : Conn) (bs : list byte) : Conn :=
  mkConn (inbound c) bs (wbroken c) (closed c) (entropy c).
Definition set_closed (c : Conn) : Conn :=
  mkConn (inbound c) (written c) (wbroken c) true (entropy c).
Definition set_entropy (c : Conn) (bs : list byte) : Conn :=
  mkConn (inbound c) (written c) (wbroken c) (closed c) bs.

(** A run either returns with the connection it leaves, or panics.  Loops
    are unrolled a bounded number of times; [OutOfFuel] is a loop cut short by
    that bound (the lemmas [*_total] show the bounds used are never hit). *)
Inductive res (A : Type) : Type :=
| Ok (a : A) (c : Conn)
| Panic (msg : string)
| OutOfFuel.
Arguments Ok {A} a c.
Arguments Panic {A} msg.
Arguments OutOfFuel {A}.

Definition M (A : Type) : Type := Conn -> res A.

Definition ret {A} (a : A) : M A := fun c => Ok a c.
Definition panic {A} (msg : string) : M A := fun _ => Panic msg.
Definition out_of_fuel {A} : M A := fun _ => OutOfFuel.
Definition bind {A B} (m : M A) (k : A -> M B) : M B :=
  fun c => match m c with
           | Ok a c' => k a c'
           | Panic msg => Panic msg
           | OutOfFuel => OutOfFuel
           end.

Notation "x <- m ;; k" := (bind m (fun x => k))
  (at level 61, m at next level, right associativity).
(** [v, err := m; if err != nil { return nil, err }] *)
Notation "'try' x <- m ;; k" :=
  (bind m (fun r => match r with
                    | Val x => k
                    | Err e => ret (Err e)
                    end))
  (at level 61, x name, m at next level, right associativity).

(** [io.ReadFull(conn, buf)] with [len(buf) = n]: all [n] bytes or an error;
    [io.EOF] when nothing at all could be read. *)
Definition ReadFull (n : Z) : M (result (list byte)) := fun c =>
  if n <=? 0 then Ok (Val []) c
  else match inbound c with
       | [] => Ok (Err EOF) c
       | _ =>
         if Z.of_nat (length (inbound c)) <? n
         then Ok (Err ErrUnexpectedEOF) (set_inbound c [])
         else Ok (Val (firstn (Z.to_nat n) (inbound c)))
                 (set_inbound c (skipn (Z.to_nat n) (inbound c)))
       end.

(** [conn.Write(b)]. *)
Definition Write (b : list byte) : M (option error) := fun c =>
  if wbroken c then Ok (Some ErrWrite) c
  else Ok None (set_written c (written c ++ b)).

(** [conn.Close()]. *)
Definition Close : M unit := fun c => Ok tt (set_closed c).

(** [rand.Read(key)] with [len(key) = n]. *)
Definition rand_Read (n : nat) : M (result (list byte)) := fun c =>
  if (length (entropy c) <? n)%nat then Ok (Err ErrRand) c
  else Ok (Val (firstn n (entropy c))) (set_entropy c (skipn n (entropy c))).

(** ** The frame *)

Record Frame : Type := mkFrame {
  Fin        : bool;
  Opcode     : byte;
  Masked     : bool;
  PayloadLen : Z;
  MaskKey    : list byte;
  Payload    : list byte
}.

(** The loop [for i := range p { p[i] ^= key[i%4] }], started at index [i].
    [None] is the run-time panic of an index beyond [len(key)]. *)
Fixpoint xor_mask (key : list byte) (i : nat) (p : list byte)
  : option (list byte) :=
  match p with
  | [] => Some []
  | b :: p' =>
    match nth_error key (i mod 4) with
    | None => None
    | Some k =>
      match xor_mask key (S i) p' with
      | None => None
      | Some q => Some (b .^ k :: q)
      end
    end
  end.

Definition ReadFrame : M (result Frame) :=
  try firstByte <- ReadFull 1 ;;
  let fin := negb (byte.unsigned (hd x00 firstByte .& x80) =? 0) in
  let opcode := hd x00 firstByte .& x0f in
  try secondByte <- ReadFull 1 ;;
  let masked := negb (byte.unsigned (hd x00 secondByte .& x80) =? 0) in
  let payloadLen := hd x00 secondByte .& x7f in
  try len <-
    (if byte.unsigned payloadLen =? 126 then
       try extendedLen <- ReadFull 2 ;;
       ret (Val (BigEndian.Uint16 extendedLen))
     else if byte.unsigned payloadLen =? 127 then
       try extendedLen <- ReadFull 8 ;;
       ret (Val (BigEndian.Uint64 extendedLen))
     else ret (Val (byte.unsigned payloadLen))) ;;
  try key <- (if masked then ReadFull 4 else ret (Val [])) ;;
  if 0 <? len then
    if maxInt <? len then panic "makeslice: len out of range"
    else
      try payload <- ReadFull len ;;
      if masked then
        match xor_mask key 0 payload with
        | Some unmasked => ret (Val (mkFrame fin opcode masked len key unmasked))
        | None => panic "index out of range"
        end
      else ret (Val (mkFrame fin opcode masked len key payload))
  else ret (Val (mkFrame fin opcode masked len key [])).

Definition OpcodeName (f : Frame) : string :=
  match byte.unsigned (Opcode f) with
  | 0 => "continuation"
  | 1 => "text"
  | 2 => "binary"
  | 8 => "close"
  | 9 => "ping"
  | 10 => "pong"
  | _ => "unknown"
  end.

(** ** crypto/sha1

    [sha1.New()], [Write] and [Sum(nil)] of Go's standard library, as the
    one-pass digest of FIPS 180-4, section 6.1, on 32-bit words. *)

Module sha1.

Definition w32 (x : Z) : Z := x mod 2 ^ 32.
Definition add (x y : Z) : Z := w32 (x + y).
Definition rotl (n x : Z) : Z :=
  w32 (Z.lor (Z.shiftl x n) (Z.shiftr x (32 - n))).
Definition not32 (x : Z) : Z := Z.lxor x 0xFFFFFFFF.

Definition f (t b c d : Z) : Z :=
  if t <? 20 then Z.lor (Z.land b c) (Z.land (not32 b) d)
  else if t <? 40 then Z.lxor b (Z.lxor c d)
  else if t <? 60 then Z.lor (Z.lor (Z.land b c) (Z.land b d)) (Z.land c d)
  else Z.lxor b (Z.lxor c d).

Definition K (t : Z) : Z :=
  if t <? 20 then 0x5A827999
  else if t <? 40 then 0x6ED9EBA1
  else if t <? 60 then 0x8F1BBCDC
  else 0xCA62C1D6.

Definition state : Type := (Z * Z * Z * Z * Z)%type.

Definition init : state :=
  (0x67452301, 0xEFCDAB89, 0x98BADCFE, 0x10325476, 0xC3D2E1F0).

(** Message length in bits as eight bytes, after the 0x80 byte and the
    zeros that bring the total to a multiple of 64. *)
Definition pad (msg : list byte) : list byte :=
  let l := Z.of_nat (length msg) in
  let zeros := Z.to_nat ((55 - l) mod 64) in
  msg ++ x80 :: repeat x00 zeros ++ BigEndian.split 8 (8 * l).

(** The bytes of one block as big-endian words. *)
Fixpoint words (bs : list byte) : list Z :=
  match bs with
  | a :: b :: c :: d :: rest => BigEndian.combine 0 [a; b; c; d] :: words rest
  | _ => []
  end.

(** [n] rounds from round [t]; [win] holds W(t) .. W(t+15). *)
Fixpoint rounds (n : nat) (t : Z) (st : state) (win : list Z) : state :=
  match n with
  | O => st
  | S m =>
    let '(a, b, c, d, e) := st in
    let wt := nth 0 win 0 in
    let tmp := add (add (add (add (rotl 5 a) (f t b c d)) e) (K t)) wt in
    let nxt := rotl 1 (Z.lxor (Z.lxor (nth 13 win 0) (nth 8 win 0))
                              (Z.lxor (nth 2 win 0) wt)) in
    rounds m (t + 1) (tmp, a, rotl 30 b, c, d) (tl win ++ [nxt])
  end.

Definition block (h : state) (blk : list byte) : state :=
  let '(h0, h1, h2, h3, h4) := h in
  let '(a, b, c, d, e) := rounds 80 0 h (words blk) in
  (add h0 a, add h1 b, add h2 c, add h3 d, add h4 e).

Fixpoint blocks (n : nat) (h : state) (bs : list byte) : state :=
  match n with
  | O => h
  | S m => blocks m (block h (firstn 64 bs)) (skipn 64 bs)
  end.

(** The 20-byte digest of [msg]. *)
Definition Sum (msg : list byte) : list byte :=
  let p := pad msg in
  let '(h0, h1, h2, h3, h4) := blocks (length p / 64) init p in
  BigEndian.split 4 h0 ++ BigEndian.split 4 h1 ++ BigEndian.split 4 h2
    ++ BigEndian.split 4 h3 ++ BigEndian.split 4 h4.

End sha1.

(** ** encoding/base64, StdEncoding (RFC 4648, with padding) *)

Module base64.

Definition encodeStd : string :=
  "ABCDEFGHIJKLMNOPQRSTUVWXYZabcdefghijklmnopqrstuvwxyz0123456789+/".

Definition digit (v : Z) : ascii :=
  match String.get (Z.to_nat (v mod 64)) encodeStd with
  | Some ch => ch
  | None => "="%char
  end.

Fixpoint EncodeToString (src : list byte) : string :=
  match src with
  | [] => EmptyString
  | [a] =>
    let v := Z.shiftl (byte.unsigned a) 16 in
    String (digit (Z.shiftr v 18)) (String (digit (Z.shiftr v 12)) "==")
  | [a; b] =>
    let v := Z.lor (Z.shiftl (byte.unsigned a) 16)
                   (Z.shiftl (byte.unsigned b) 8) in
    String (digit (Z.shiftr v 18)) (String (digit (Z.shiftr v 12))
      (String (digit (Z.shiftr v 6)) "="))
  | a :: b :: c :: rest =>
    let v := Z.lor (Z.lor (Z.shiftl (byte.unsigned a) 16)
                          (Z.shiftl (byte.unsigned b) 8))
                   (byte.unsigned c) in
    String (digit (Z.shiftr v 18)) (String (digit (Z.shiftr v 12))
      (String (digit (Z.shiftr v 6)) (String (digit v)
        (EncodeToString rest))))
  end.

End base64.

(** ** server.go *)

Definition generateWebSocketAcceptKey (key : string) : string :=
  let h := sha1.Sum (bytes_of (key ++ "258EAFA5-E914-47DA-95CA-C5AB0DC85B11")) in
  base64.EncodeToString h.

(** [strings.Contains(s, substr)]. *)
Fixpoint Contains (s substr : string) : bool :=
  String.prefix substr s
  || match s with
     | EmptyString => false
     | String _ s' => Contains s' substr
     end.

(** ** net/http: the parsed upgrade request

    [http.ReadRequest] belongs to Go's standard library; its outcome is an
    input of [handleWebSocket] here.  A [Header] maps canonical keys to the
    values received under them, in order. *)

Module http.

Definition Header : Type := list (string * list string).

Definition upper (ch : ascii) : ascii :=
  let n := nat_of_ascii ch in
  if ((97 <=? n) && (n <=? 122))%nat then ascii_of_nat (n - 32) else ch.
Definition lower (ch : ascii) : ascii :=
  let n := nat_of_ascii ch in
  if ((65 <=? n) && (n <=? 90))%nat then ascii_of_nat (n + 32) else ch.

(** [textproto.CanonicalMIMEHeaderKey] on a key made of token characters:
    the first letter and every letter after a hyphen in upper case, the
    others in lower case. *)
Fixpoint canonical (up : bool) (key : string) : string :=
  match key with
  | EmptyString => EmptyString
  | String ch rest =>
    String (if up then upper ch else lower ch)
           (canonical (Ascii.eqb ch "-") rest)
  end.
Definition CanonicalMIMEHeaderKey (key : string) : string :=
  canonical true key.

Fixpoint values (h : Header) (key : string) : list string :=
  match h with
  | [] => []
  | (k, vs) :: h' => if String.eqb k key then vs else values h' key
  end.

(** [h.Get(key)]: the first value under the canonical key, or [""]. *)
Definition Get (h : Header) (key : string) : string :=
  match values h (CanonicalMIMEHeaderKey key) with
  | v :: _ => v
  | [] => EmptyString
  end.

Record Request : Type := mkRequest { Header_ : Header }.

End http.

Definition CRLF : string := String "013" (String "010" EmptyString).

(** What the server answers on a valid upgrade request. *)
Definition handshakeResponse (acceptKey : string) : string :=
  "HTTP/1.1 101 Switching Protocols" ++ CRLF ++
  "Upgrade: websocket" ++ CRLF ++
  "Connection: Upgrade" ++ CRLF ++
  "Sec-WebSocket-Accept: " ++ acceptKey ++ CRLF ++ CRLF.

(** The server's [sendFrame(conn, payload)]; both [Write] results are
    dropped. *)
Definition sendFrame (payload : list byte) : M unit :=
  let frame := mkFrame true x01 false (uint64 (Z.of_nat (length payload)))
                       [] payload in
  let header := [x81] in
  let header :=
    if PayloadLen frame <=? 125 then
      header ++ [byte.of_Z (PayloadLen frame)]
    else if PayloadLen frame <=? 65535 then
      (header ++ [byte.of_Z 126])
        ++ BigEndian.PutUint16 (uint16 (PayloadLen frame))
    else
      (header ++ [byte.of_Z 127]) ++ BigEndian.PutUint64 (PayloadLen frame) in
  _ <- Write header ;;
  _ <- Write payload ;;
  ret tt.

(** [json.Marshal(Msg{Role: "agent", Content: "Okay i got it"})]. *)
Definition responseJSON : list byte :=
  let q := String "034" EmptyString in
  bytes_of ("{" ++ q ++ "role" ++ q ++ ":" ++ q ++ "agent" ++ q ++ ","
                ++ q ++ "content" ++ q ++ ":" ++ q ++ "Okay i got it" ++ q
                ++ "}").

Section Server.

(** Whether [json.Unmarshal(payload, &msg)] returns nil. *)
Variable json_Unmarshal_ok : list byte -> bool.

(** The frame loop of [handleWebSocket]. *)
Fixpoint serveFrames (fuel : nat) : M unit :=
  match fuel with
  | O => out_of_fuel
  | S n =>
    r <- ReadFrame ;;
    match r with
    | Err _ => ret tt
    | Val frame =>
      let name := OpcodeName frame in
      if String.eqb name "close" then ret tt
      else if String.eqb name "ping" then serveFrames n
      else if String.eqb name "pong" then serveFrames n
      else if String.eqb name "text" then
        if json_Unmarshal_ok (Payload frame)
        then _ <- sendFrame responseJSON ;; serveFrames n
        else serveFrames n
      else serveFrames n
    end
  end.

(** [handleWebSocket(conn)], given what [http.ReadRequest] returned.  The
    deferred [conn.Close()] runs on every return. *)
Definition handleWebSocket (request : result http.Request) : M unit :=
  fun conn =>
    let body : M unit :=
      match request with
      | Err _ => ret tt
      | Val request =>
        let h := http.Header_ request in
        if negb (Contains (http.Get h "Connection") "Upgrade")
           || negb (String.eqb (http.Get h "Upgrade") "websocket")
        then ret tt
        else
          let key := http.Get h "Sec-WebSocket-Key" in
          let acceptKey := generateWebSocketAcceptKey key in
          err <- Write (bytes_of (handshakeResponse acceptKey)) ;;
          match err with
          | Some _ => ret tt
          | None => serveFrames (S (length (inbound conn)))
          end
      end in
    (_ <- body ;; Close) conn.

End Server.

(** ** client.go *)

Definition MaxFrameSize : Z := 65535.

(** The struct [Message]; its field [Type] is [Type_] here. *)
Module Message.
Record t : Type := mk { Type_ : byte; Payload : list byte }.
End Message.

Definition generateMaskKey : M (list byte) :=
  r <- rand_Read 4 ;;
  match r with
  | Err _ => ret [x00; x00; x00; x00]
  | Val key => ret key
  end.

(** [conn.Read(buf)] with [len(buf) = n]: what has arrived, at most [n]
    bytes; [io.EOF] on a stream that ended. *)
Definition Read (n : nat) : M (result (list byte)) := fun c =>
  match inbound c with
  | [] => Ok (Err EOF) c
  | _ => Ok (Val (firstn n (inbound c))) (set_inbound c (skipn n (inbound c)))
  end.

Module Client.

Definition handshakeRequest (websocketKey : string) : string :=
  "GET / HTTP/1.1" ++ CRLF ++
  "Host: localhost" ++ CRLF ++
  "Upgrade: websocket" ++ CRLF ++
  "Connection: Upgrade" ++ CRLF ++
  "Sec-WebSocket-Key: " ++ websocketKey ++ CRLF ++
  "Sec-WebSocket-Version: 13" ++ CRLF ++
  CRLF.

Definition Handshake : M (option error) :=
  r <- rand_Read 16 ;;
  match r with
  | Err e => ret (Some (Errorf ("error generating random key: " ++ Error e)))
  | Val key =>
    let websocketKey := base64.EncodeToString key in
    err <- Write (bytes_of (handshakeRequest websocketKey)) ;;
    match err with
    | Some e => ret (Some (Errorf ("error sending handshake: " ++ Error e)))
    | None =>
      r <- Read 1024 ;;
      match r with
      | Err e =>
        ret (Some (Errorf ("error reading handshake response: " ++ Error e)))
      | Val response =>
        (* string(response[:n])[9:32] *)
        if (length response <? 32)%nat
        then panic "slice bounds out of range"
        else
          if String.eqb (string_of (skipn 9 (firstn 32 response)))
                        "101 Switching Protocols"
          then ret None
          else ret (Some (Errorf "invalid handshake response"))
      end
    end
  end.

Definition sendFrame (frame : Frame) : M (option error) :=
  let header0 :=
    if Fin frame then x80 .| Opcode frame else Opcode frame in
  let header :=
    if PayloadLen frame <=? 125 then
      [header0; byte.of_Z (PayloadLen frame) .| x80]
    else if PayloadLen frame <=? 65535 then
      [header0; byte.of_Z 126 .| x80]
        ++ BigEndian.PutUint16 (uint16 (PayloadLen frame))
    else
      [header0; byte.of_Z 127 .| x80]
        ++ BigEndian.PutUint64 (PayloadLen frame) in
  let header := header ++ MaskKey frame in
  match xor_mask (MaskKey frame) 0 (Payload frame) with
  | None => panic "index out of range"
  | Some maskedPayload =>
    err <- Write header ;;
    match err with
    | Some e => ret (Some e)
    | None =>
      err <- Write maskedPayload ;;
      match err with
      | Some e => ret (Some e)
      | None => ret None
      end
    end
  end.

Definition sendPong (payload : list byte) : M (option error) :=
  key <- generateMaskKey ;;
  sendFrame (mkFrame true x0a true (uint64 (Z.of_nat (length payload)))
                     key payload).

(** The loop of [sendFragmentedMessage]. *)
Fixpoint sendFragments (fuel : nat) (remaining : list byte)
         (firstFragment : bool) (opcode : byte) : M (option error) :=
  match fuel with
  | O => out_of_fuel
  | S n =>
    if 0 <? Z.of_nat (length remaining) then
      let isFinal := Z.of_nat (length remaining) <=? MaxFrameSize in
      let chunk :=
        if isFinal then remaining
        else firstn (Z.to_nat MaxFrameSize) remaining in
      let remaining' :=
        if isFinal then [] else skipn (Z.to_nat MaxFrameSize) remaining in
      key <- generateMaskKey ;;
      let frame :=
        mkFrame isFinal (if firstFragment then opcode else x00) true
                (uint64 (Z.of_nat (length chunk))) key chunk in
      err <- sendFrame frame ;;
      match err with
      | Some e =>
        ret (Some (Errorf ("error sending frame fragment: " ++ Error e)))
      | None => sendFragments n remaining' false opcode
      end
    else ret None
  end.

Definition sendFragmentedMessage (data : list byte) (opcode : byte)
  : M (option error) :=
  sendFragments (S (length data)) data true opcode.


Definition SendBinaryMessage (data : list byte) : M (option error) :=
  sendFragmentedMessage data x02.

(** The loop of [ReadFullMessage], entered with the values the two
    variables [fullMessage] and [messageOpcode] hold. *)
Fixpoint readFrames (fuel : nat) (fullMessage : list byte)
         (messageOpcode : byte) : M (result Message.t) :=
  match fuel with
  | O => out_of_fuel
  | S n =>
    r <- ReadFrame ;;
    match r with
    | Err EOF => ret (Err (Errorf "connection closed"))
    | Err e => ret (Err (Errorf ("error reading frame: " ++ Error e)))
    | Val frame =>
      let name := OpcodeName frame in
      if String.eqb name "close" then
        ret (Err (Errorf "received close frame"))
      else if String.eqb name "ping" then
        _ <- sendPong (Payload frame) ;;
        readFrames n fullMessage messageOpcode
      else if String.eqb name "pong" then
        readFrames n fullMessage messageOpcode
      else
        let append (messageOpcode : byte) : M (result Message.t) :=
          let fullMessage := fullMessage ++ Payload frame in
          if Fin frame then ret (Val (Message.mk messageOpcode fullMessage))
          else readFrames n fullMessage messageOpcode in
        if (length fullMessage =? 0)%nat then
          append (Opcode frame)
        else if negb (byte.unsigned (Opcode frame) =? 0) then
          ret (Err (Errorf "protocol error: expected continuation frame"))
        else append messageOpcode
    end
  end.

Definition ReadFullMessage : M (result Message.t) :=
  fun conn => readFrames (S (length (inbound conn))) [] x00 conn.

Definition ReadMessage : M (result (list byte)) :=
  try message <- ReadFullMessage ;;
  ret (Val (Message.Payload message)).

End Client.

(** ** 01-understanding-tcp-udp/tcp/server.go: the line echo *)

Module Transport.

(** The split [reader.ReadString('\n')] makes: the bytes up to and including
    the first newline, and what follows; [None] where there is no newline. *)
Fixpoint cut_line (bs : list byte) : option (list byte * list byte) :=
  match bs with
  | [] => None
  | b :: bs' =>
    if Byte.eqb b x0a then Some ([b], bs')
    else match cut_line bs' with
         | Some (line, rest) => Some (b :: line, rest)
         | None => None
         end
  end.

(** [reader.ReadString('\n')] on a [bufio.Reader] that is the only reader of
    the connection: the line with its newline, or, at the end of the stream,
    what was left together with [io.EOF]. *)
Definition ReadString : M (list byte * option error) := fun c =>
  match cut_line (inbound c) with
  | Some (line, rest) => Ok (line, None) (set_inbound c rest)
  | None => Ok (inbound c, Some EOF) (set_inbound c [])
  end.

(** The loop of [handleConnection]; the result of [conn.Write] is dropped. *)
Fixpoint echoLines (fuel : nat) : M unit :=
  match fuel with
  | O => out_of_fuel
  | S n =>
    r <- ReadString ;;
    match snd r with
    | Some _ => ret tt
    | None =>
      _ <- Write (bytes_of "Echo: " ++ fst r) ;;
      echoLines n
    end
  end.

(** [handleConnection(conn)], with its deferred [conn.Close()]. *)
Definition handleConnection : M unit :=
  fun conn => (_ <- echoLines (S (length (inbound conn))) ;; Close) conn.

End Transport.

(** * Vocabulary of the statements

    ** Frames and their image on the wire *)

(** Bit 7 of a header byte: FIN in byte 0, MASK in byte 1. *)
Definition bit7 (b : byte) : bool := negb (byte.unsigned (b .& x80) =? 0).

(** Byte 0 of the frame [f]. *)
Definition header0 (f : Frame) : byte :=
  if Fin f then x80 .| Opcode f else Opcode f.

(** Byte 1 and the extended length of a frame of [len] payload bytes, with
    [m] (0x00 or 0x80) as the mask bit. *)
Definition lenField (m : byte) (len : Z) : list byte :=
  if len <=? 125 then [byte.of_Z len .| m]
  else if len <=? 65535 then
    (byte.of_Z 126 .| m) :: BigEndian.PutUint16 (uint16 len)
  else (byte.of_Z 127 .| m) :: BigEndian.PutUint64 len.

(** A frame as the data model wants it: a 4-bit opcode, [PayloadLen] the
    number of payload bytes (a slice length, so an [int]), and a 4-byte mask
    key exactly when the frame is masked. *)
Definition valid_frame (f : Frame) : Prop :=
  byte.unsigned (Opcode f) < 16 /\
  PayloadLen f = Z.of_nat (length (Payload f)) /\
  PayloadLen f <= maxInt /\
  length (MaskKey f) = (if Masked f then 4 else 0)%nat.

(** The masked payload; [[]] stands in where the key is too short, which
    [valid_frame] rules out. *)
Definition mask (key payload : list byte) : list byte :=
  match xor_mask key 0 payload with
  | Some q => q
  | None => []
  end.

(** The RFC 6455 image of a frame. *)
Definition wire (f : Frame) : list byte :=
  header0 f
  :: lenField (if Masked f then x80 else x00) (PayloadLen f)
  ++ MaskKey f
  ++ (if Masked f then mask (MaskKey f) (Payload f) else Payload f).

(** The bytes that follow byte 0 up to the end of the length, as numbers:
    the indicator with the mask bit [mask] (0 or 128) added, then the
    extended length, most significant byte first. *)
Definition lengthTier (mask n : Z) : list Z :=
  if n <=? 125 then [n + mask]
  else if n <=? 65535 then [126 + mask; n / 256; n mod 256]
  else [127 + mask;
        n / 2 ^ 56 mod 256; n / 2 ^ 48 mod 256; n / 2 ^ 40 mod 256;
        n / 2 ^ 32 mod 256; n / 2 ^ 24 mod 256; n / 2 ^ 16 mod 256;
        n / 2 ^ 8 mod 256; n mod 256].

(** The server's encoder at [payload]: the header it writes and the length
    [ReadFrame] recovers from it. *)
Definition server_tier_correct (payload : list byte) : Prop :=
  let n := Z.of_nat (length payload) in
  forall c, wbroken c = false ->
    exists hdr,
      sendFrame payload c
      = Ok tt (set_written c (written c ++ x81 :: hdr ++ payload)) /\
      map byte.unsigned hdr = lengthTier 0 n /\
      forall d rest, inbound d = x81 :: hdr ++ payload ++ rest ->
        exists f, ReadFrame d = Ok (Val f) (set_inbound d rest) /\
                  PayloadLen f = n.

(** The same for the client's encoder, whatever the FIN bit, the opcode and
    the mask key. *)
Definition client_tier_correct (payload : list byte) : Prop :=
  let n := Z.of_nat (length payload) in
  forall fin op key c,
    byte.unsigned op < 16 -> length key = 4%nat -> wbroken c = false ->
    exists hdr masked,
      Client.sendFrame (mkFrame fin op true n key payload) c
      = Ok None (set_written c
                   (written c ++ (if fin then x80 .| op else op)
                                 :: hdr ++ key ++ masked)) /\
      map byte.unsigned hdr = lengthTier 128 n /\
      forall d rest,
        inbound d = (if fin then x80 .| op else op)
                    :: hdr ++ key ++ masked ++ rest ->
        exists f, ReadFrame d = Ok (Val f) (set_inbound d rest) /\
                  PayloadLen f = n.

(** ** The handshake condition

    In the words of the specification the [Connection] value holds the token
    [Upgrade], compared without regard to case, among its comma-separated
    elements; the code looks for the substring. *)

Definition lower_string (s : string) : string :=
  string_of_list_ascii (map http.lower (list_ascii_of_string s)).

Definition is_ows (ch : ascii) : bool :=
  Ascii.eqb ch " " || Ascii.eqb ch "009".

(** The elements of a comma-separated header value, blanks removed. *)
Fixpoint elements (s : string) (cur : string) : list string :=
  match s with
  | EmptyString => [cur]
  | String ch rest =>
    if Ascii.eqb ch "," then cur :: elements rest EmptyString
    else if is_ows ch then elements rest cur
    else elements rest (cur ++ String ch EmptyString)
  end.

Definition has_token (value token : string) : bool :=
  existsb (fun e => String.eqb (lower_string e) (lower_string token))
          (elements value EmptyString).

Definition spec_handshake_ok (h : http.Header) : bool :=
  has_token (http.Get h "Connection") "Upgrade"
  && String.eqb (http.Get h "Upgrade") "websocket".

(** The condition the code tests. *)
Definition code_handshake_ok (h : http.Header) : bool :=
  Contains (http.Get h "Connection") "Upgrade"
  && String.eqb (http.Get h "Upgrade") "websocket".

(** ** Fragment sequences *)

(** [frames] carry [data] by the sender's policy: full chunks of
    [MaxFrameSize] bytes, then the remainder; the given opcode on the first
    frame only; FIN on the last only. *)
Fixpoint fragmented (first : bool) (opcode : byte) (data : list byte)
         (frames : list Frame) : Prop :=
  match frames with
  | [] => data = []
  | f :: fs =>
    valid_frame f /\ Masked f = true /\
    Opcode f = (if first then opcode else x00) /\
    0 < Z.of_nat (length (Payload f)) <= MaxFrameSize /\
    (match fs with
     | [] => Fin f = true
     | _ => Fin f = false /\ Z.of_nat (length (Payload f)) = MaxFrameSize
     end) /\
    exists rest, data = Payload f ++ rest /\ fragmented false opcode rest fs
  end.

(** A frame the client's loop treats as data. *)
Definition data_frame (f : Frame) : Prop :=
  String.eqb (OpcodeName f) "close" = false /\
  String.eqb (OpcodeName f) "ping" = false /\
  String.eqb (OpcodeName f) "pong" = false.

(** Continuation frames closing a message: FIN on the last one only. *)
Fixpoint continuation_run (fs : list Frame) : Prop :=
  match fs with
  | [] => False
  | f :: fs' =>
    valid_frame f /\ Opcode f = x00 /\
    match fs' with
    | [] => Fin f = true
    | _ => Fin f = false /\ continuation_run fs'
    end
  end.

(** ** Runs of the connection monad *)

(** [m] leaves no more unread input than it found. *)
Definition shrinks {A} (m : M A) : Prop :=
  forall c a c', m c = Ok a c' ->
                 (length (inbound c') <= length (inbound c))%nat.

(** [m] is not cut short by a loop bound. *)
Definition bounded {A} (m : M A) : Prop := forall c, m c <> OutOfFuel.

(** ** Inputs used in the examples *)

(** A fresh connection: nothing to read, nothing written, no random bytes. *)
Definition conn0 : Conn := mkConn [] [] false false [].

(** 65536 bytes, one more than fits the 16-bit length. *)
Definition big_payload : list byte := repeat x41 (Z.to_nat 65536).

(** A 28-byte refusal. *)
Definition bad_request : list byte :=
  bytes_of ("HTTP/1.1 400 Bad Request" ++ CRLF ++ CRLF).

(** The upgrade request of a browser, with the key of RFC 6455. *)
Definition browser_upgrade : http.Request :=
  http.mkRequest [("Connection", ["keep-alive, Upgrade"]);
                  ("Upgrade", ["websocket"]);
                  ("Sec-Websocket-Key", ["dGhlIHNhbXBsZSBub25jZQ=="])].

(** The same with the token in lower case. *)
Definition lowercase_upgrade : http.Request :=
  http.mkRequest [("Connection", ["upgrade"]);
                  ("Upgrade", ["websocket"]);
                  ("Sec-Websocket-Key", ["dGhlIHNhbXBsZSBub25jZQ=="])].

(** A [Connection] value that contains the letters but not the token. *)
Definition substring_upgrade : http.Request :=
  http.mkRequest [("Connection", ["NoUpgrade"]);
                  ("Upgrade", ["websocket"]);
                  ("Sec-Websocket-Key", ["dGhlIHNhbXBsZSBub25jZQ=="])].

(** A masked ping with payload [hi] and key 01 02 03 04. *)
Definition ping_hi : list byte :=
  [x89; x82; x01; x02; x03; x04; byte.xor "h" x01; byte.xor "i" x02].

(** ** What the server sends and what a line echo receives *)

(** The one frame the server ever sends after the handshake. *)
Definition server_reply : list byte :=
  x81 :: lenField x00 (Z.of_nat (length responseJSON)) ++ responseJSON.

(** [m] writes nothing. *)
Definition silent {A} (m : M A) : Prop :=
  forall c a c', m c = Ok a c' -> written c' = written c.

(** Lines on the wire: each followed by its newline. *)
Definition terminated (lines : list (list byte)) : list byte :=
  concat (map (fun l => l ++ [x0a]) lines).

(** What the line echo answers to them. *)
Definition echoed (lines : list (list byte)) : list byte :=
  concat (map (fun l => bytes_of "Echo: " ++ l ++ [x0a]) lines).

(** A byte sequence without a newline. *)
Definition no_newline (l : list byte) : Prop := ~ In x0a l.

(** The opcode of a text or binary message. *)
Definition message_opcode (op : byte) : Prop := op = x01 \/ op = x02.

(** A connection that accepts writes and holds [bs] as random bytes. *)
Definition conn_with_entropy (bs : list byte) : Conn :=
  mkConn [] [] false false bs.

(** ** Streams that end early, lengths that do not fit *)




(** A frame header that announces 2^64-1 bytes of payload. *)
Definition huge_header : list byte :=
  [x82; x7f; xff; xff; xff; xff; xff; xff; xff; xff].

(** * Properties

    ** Bytes and big-endian integers *)

Lemma byte_testbit_high (b : byte) (i : Z) :
  8 <= i -> Z.testbit (byte.unsigned b) i = false.
Proof.
  intros Hi. pose proof (byte.unsigned_range b) as Hb.
  destruct (Z.eq_dec (byte.unsigned b) 0) as [E | E].
  - rewrite E. apply Z.testbit_0_l.
  - apply Z.bits_above_log2; [lia|].
    apply Z.lt_le_trans with 8; [|exact Hi].
    apply Z.log2_lt_pow2; lia.
Qed.

Lemma wrap_small (z : Z) :
  (forall i, 8 <= i -> Z.testbit z i = false) -> byte.wrap z = z.
Proof.
  intros H. unfold byte.wrap. rewrite <- Z.land_ones by lia.
  apply Z.bits_inj'. intros i Hi. rewrite Z.land_spec.
  destruct (Z.ltb_spec i 8).
  - rewrite Z.ones_spec_low by lia. apply andb_true_r.
  - rewrite H by lia. reflexivity.
Qed.

Ltac byte_op :=
  intros; rewrite byte.unsigned_of_Z; apply wrap_small; intros i Hi;
  rewrite ?Z.land_spec, ?Z.lor_spec, ?Z.lxor_spec,
    !byte_testbit_high by exact Hi; reflexivity.

Lemma unsigned_and a b :
  byte.unsigned (a .& b) = Z.land (byte.unsigned a) (byte.unsigned b).
Proof. unfold byte.and. byte_op. Qed.

Lemma unsigned_or a b :
  byte.unsigned (a .| b) = Z.lor (byte.unsigned a) (byte.unsigned b).
Proof. unfold byte_or. byte_op. Qed.

Lemma unsigned_xor a b :
  byte.unsigned (a .^ b) = Z.lxor (byte.unsigned a) (byte.unsigned b).
Proof. unfold byte.xor. byte_op. Qed.

Lemma xor_involutive a k : (a .^ k) .^ k = a.
Proof.
  apply byte.unsigned_inj. rewrite !unsigned_xor.
  rewrite Z.lxor_assoc, Z.lxor_nilpotent. apply Z.lxor_0_r.
Qed.

Lemma unsigned_of_Z_small z : 0 <= z < 256 -> byte.unsigned (byte.of_Z z) = z.
Proof.
  intros H. rewrite byte.unsigned_of_Z. unfold byte.wrap.
  apply Z.mod_small. lia.
Qed.

Lemma or_x00 b : b .| x00 = b.
Proof.
  apply byte.unsigned_inj. rewrite unsigned_or.
  change (byte.unsigned x00) with 0. apply Z.lor_0_r.
Qed.

Lemma uint64_small z : 0 <= z <= maxInt -> uint64 z = z.
Proof. unfold uint64, maxInt. intros H. apply Z.mod_small. lia. Qed.

(** BigEndian *)
Lemma combine_split n : forall acc v,
  BigEndian.combine acc (BigEndian.split n v)
  = Z.lor (Z.shiftl acc (8 * Z.of_nat n)) (v mod 2 ^ (8 * Z.of_nat n)).
Proof.
  induction n as [|m IH]; intros acc v.
  - cbn [BigEndian.split BigEndian.combine]. change (8 * Z.of_nat 0) with 0.
    rewrite Z.shiftl_0_r, Z.pow_0_r, Z.mod_1_r. symmetry. apply Z.lor_0_r.
  - cbn [BigEndian.split BigEndian.combine]. rewrite IH.
    rewrite byte.unsigned_of_Z. unfold byte.wrap.
    rewrite <- !Z.land_ones by lia.
    Z.bitblast.
    rewrite (Z.testbit_neg_r acc) by lia. reflexivity.
Qed.

Lemma Uint16_PutUint16 v :
  0 <= v < 2 ^ 16 -> BigEndian.Uint16 (BigEndian.PutUint16 v) = v.
Proof.
  intros H. unfold BigEndian.Uint16, BigEndian.PutUint16.
  change (firstn 2 (BigEndian.split 2 v)) with (BigEndian.split 2 v).
  rewrite combine_split. rewrite Z.shiftl_0_l, Z.lor_0_l.
  apply Z.mod_small. exact H.
Qed.

Lemma Uint64_PutUint64 v :
  0 <= v < 2 ^ 64 -> BigEndian.Uint64 (BigEndian.PutUint64 v) = v.
Proof.
  intros H. unfold BigEndian.Uint64, BigEndian.PutUint64.
  change (firstn 8 (BigEndian.split 8 v)) with (BigEndian.split 8 v).
  rewrite combine_split. rewrite Z.shiftl_0_l, Z.lor_0_l.
  apply Z.mod_small. exact H.
Qed.

Lemma length_split n v : length (BigEndian.split n v) = n.
Proof. induction n; cbn [BigEndian.split length]; congruence. Qed.

Lemma low7_or_mask len m :
  0 <= len < 128 -> m = x00 \/ m = x80 ->
  byte.unsigned ((byte.of_Z len .| m) .& x7f) = len /\
  bit7 (byte.of_Z len .| m) = bit7 m.
Proof.
  intros Hl Hm. unfold bit7.
  rewrite !unsigned_and, !unsigned_or, unsigned_of_Z_small by lia.
  assert (Hlow : Z.land len 127 = len).
  { change 127 with (Z.ones 7). rewrite Z.land_ones by lia.
    apply Z.mod_small. change (2 ^ 7) with 128. lia. }
  assert (Hhigh : Z.land len 128 = 0).
  { apply Z.bits_inj'. intros i Hi. rewrite Z.land_spec, Z.bits_0.
    destruct (Z.eq_dec i 7) as [->|Hne].
    - rewrite (Z.bits_above_log2 len 7); [reflexivity|lia|].
      destruct (Z.eq_dec len 0) as [->|]; [cbn; lia|].
      apply Z.log2_lt_pow2; [lia|]. change (2 ^ 7) with 128. lia.
    - change 128 with (2 ^ 7). rewrite Z.pow2_bits_false by lia.
      apply andb_false_r. }
  destruct Hm as [-> | ->];
    change (byte.unsigned x80) with 128; change (byte.unsigned x7f) with 127.
  - change (byte.unsigned x00) with 0. rewrite Z.lor_0_r.
    rewrite Hlow, Hhigh. split; reflexivity.
  - rewrite !Z.land_lor_distr_l, Hlow, Hhigh.
    change (Z.land 128 127) with 0. change (Z.land 128 128) with 128.
    rewrite Z.lor_0_r, Z.lor_0_l. split; reflexivity.
Qed.

Lemma bit7_x00 : bit7 x00 = false. Proof. reflexivity. Qed.
Lemma bit7_x80 : bit7 x80 = true. Proof. reflexivity. Qed.

Lemma header0_decode f :
  byte.unsigned (Opcode f) < 16 ->
  bit7 (header0 f) = Fin f /\ header0 f .& x0f = Opcode f.
Proof.
  unfold header0. intros H. destruct (Fin f).
  - destruct (Opcode f); cbv in H; try discriminate H; split; reflexivity.
  - destruct (Opcode f); cbv in H; try discriminate H; split; reflexivity.
Qed.

Lemma frame_eta f :
  mkFrame (Fin f) (Opcode f) (Masked f) (PayloadLen f) (MaskKey f) (Payload f) = f.
Proof. destruct f; reflexivity. Qed.

Lemma land_128_small (n : Z) : 0 <= n < 128 -> Z.land n 128 = 0.
Proof.
  intros H. apply Z.bits_inj'. intros i Hi. rewrite Z.land_spec, Z.bits_0.
  destruct (Z.eq_dec i 7) as [->|Hne].
  - rewrite (Z.bits_above_log2 n 7); [reflexivity|lia|].
    destruct (Z.eq_dec n 0) as [->|]; [cbn; lia|].
    apply Z.log2_lt_pow2; [lia|]. change (2 ^ 7) with 128. lia.
  - change 128 with (2 ^ 7). rewrite Z.pow2_bits_false by lia.
    apply andb_false_r.
Qed.

(** The length field, byte by byte, for every length. *)
Lemma lenField_tier (m : byte) (n : Z) :
  m = x00 \/ m = x80 -> 0 <= n <= maxInt ->
  map byte.unsigned (lenField m n) = lengthTier (byte.unsigned m) n.
Proof.
  intros Hm Hn. unfold lenField, lengthTier, maxInt in *.
  assert (Hb : forall k v, 0 <= k ->
             byte.unsigned (byte.of_Z (Z.shiftr v k)) = v / 2 ^ k mod 256).
  { intros k v Hk. rewrite byte.unsigned_of_Z. unfold byte.wrap.
    rewrite Z.shiftr_div_pow2 by lia. reflexivity. }
  destruct (Z.leb_spec n 125); [|destruct (Z.leb_spec n 65535)].
  - cbn [map]. f_equal. rewrite unsigned_or, unsigned_of_Z_small by lia.
    destruct Hm as [-> | ->].
    + change (byte.unsigned x00) with 0. rewrite Z.lor_0_r. lia.
    + change (byte.unsigned x80) with 128.
      rewrite <- Z.lxor_lor, <- Z.add_nocarry_lxor
        by (apply land_128_small; lia).
      reflexivity.
  - unfold BigEndian.PutUint16, uint16.
    rewrite (Z.mod_small n (2 ^ 16)) by lia.
    cbn [BigEndian.split map]. rewrite !Hb by lia.
    change (8 * Z.of_nat 1) with 8. change (8 * Z.of_nat 0) with 0.
    change (2 ^ 8) with 256. rewrite Z.pow_0_r, Z.div_1_r.
    rewrite (Z.mod_small (n / 256)) by (split; [apply Z.div_pos; lia|
      apply Z.div_lt_upper_bound; lia]).
    f_equal. destruct Hm as [-> | ->]; reflexivity.
  - unfold BigEndian.PutUint64.
    cbn [BigEndian.split map]. rewrite !Hb by lia.
    change (8 * Z.of_nat 7) with 56. change (8 * Z.of_nat 6) with 48.
    change (8 * Z.of_nat 5) with 40. change (8 * Z.of_nat 4) with 32.
    change (8 * Z.of_nat 3) with 24. change (8 * Z.of_nat 2) with 16.
    change (8 * Z.of_nat 1) with 8. change (8 * Z.of_nat 0) with 0.
    rewrite Z.pow_0_r, Z.div_1_r.
    f_equal. destruct Hm as [-> | ->]; reflexivity.
Qed.

(** ** Reads and writes *)

Lemma bind_Ok {A B} (m : M A) (k : A -> M B) c a c' :
  m c = Ok a c' -> bind m k c = k a c'.
Proof. intros H. unfold bind. rewrite H. reflexivity. Qed.

Lemma ReadFull_app c n bs rest :
  inbound c = bs ++ rest -> Z.of_nat (length bs) = n -> 0 < n ->
  ReadFull n c = Ok (Val bs) (set_inbound c rest).
Proof.
  intros Hin Hlen Hpos. unfold ReadFull.
  destruct (Z.leb_spec n 0) as [|_]; [lia|].
  rewrite Hin.
  destruct bs as [|b bs']; [cbn in Hlen; lia|].
  cbn [app]. rewrite <- Hlen.
  change (b :: bs' ++ rest) with ((b :: bs') ++ rest).
  rewrite length_app, Nat2Z.id.
  destruct (Z.ltb_spec (Z.of_nat (length (b :: bs') + length rest))
                       (Z.of_nat (length (b :: bs')))) as [|_]; [lia|].
  rewrite firstn_app, Nat.sub_diag, firstn_all, firstn_O, app_nil_r.
  rewrite skipn_app, Nat.sub_diag, skipn_all, skipn_O.
  reflexivity.
Qed.

Lemma set_inbound_twice c a b : set_inbound (set_inbound c a) b = set_inbound c b.
Proof. reflexivity. Qed.

Lemma inbound_set c a : inbound (set_inbound c a) = a.
Proof. reflexivity. Qed.

Lemma Write_ok b c :
  wbroken c = false -> Write b c = Ok None (set_written c (written c ++ b)).
Proof. intros H. unfold Write. rewrite H. reflexivity. Qed.

Lemma Write_broken b c :
  wbroken c = true -> Write b c = Ok (Some ErrWrite) c.
Proof. intros H. unfold Write. rewrite H. reflexivity. Qed.

Lemma set_written_twice c a b : set_written (set_written c a) b = set_written c b.
Proof. reflexivity. Qed.

(** ** Masking *)

Lemma xor_mask_length key : forall p i q,
  xor_mask key i p = Some q -> length q = length p.
Proof.
  induction p as [|b p IH]; intros i q H; cbn [xor_mask] in H.
  - injection H as <-. reflexivity.
  - destruct (nth_error key (i mod 4)); [|discriminate].
    destruct (xor_mask key (S i) p) eqn:E; [|discriminate].
    injection H as <-. cbn [length]. f_equal. eauto.
Qed.

Lemma xor_mask_involutive key : forall p i q,
  xor_mask key i p = Some q -> xor_mask key i q = Some p.
Proof.
  induction p as [|b p IH]; intros i q H; cbn [xor_mask] in H.
  - injection H as <-. reflexivity.
  - destruct (nth_error key (i mod 4)) eqn:K; [|discriminate].
    destruct (xor_mask key (S i) p) eqn:E; [|discriminate].
    injection H as <-. cbn [xor_mask]. rewrite K, (IH _ _ E).
    rewrite xor_involutive. reflexivity.
Qed.

Lemma xor_mask_some key : length key = 4%nat ->
  forall p i, exists q, xor_mask key i p = Some q.
Proof.
  intros Hk. induction p as [|b p IH]; intros i; cbn [xor_mask].
  - eauto.
  - destruct (nth_error key (i mod 4)) eqn:K.
    + destruct (IH (S i)) as [q ->]. eauto.
    + apply nth_error_None in K. rewrite Hk in K.
      pose proof (Nat.mod_upper_bound i 4). lia.
Qed.

(** ** Decoding a well-formed wire image *)

(** What [ReadFrame] does after the two header bytes and the extended
    length: the mask key, then the payload. *)
Lemma ReadFrame_tail c fin op m len key payload rest :
  (m = x00 /\ key = []) \/ (m = x80 /\ length key = 4%nat) ->
  0 <= len <= maxInt -> Z.of_nat (length payload) = len ->
  inbound c = key ++ payload ++ rest ->
  exists plain,
    (if bit7 m then xor_mask key 0 payload = Some plain else plain = payload) /\
    (try key0 <- (if bit7 m then ReadFull 4 else ret (Val [])) ;;
     if 0 <? len then
       if maxInt <? len then panic "makeslice: len out of range"
       else
         try payload0 <- ReadFull len ;;
         if bit7 m then
           match xor_mask key0 0 payload0 with
           | Some unmasked => ret (Val (mkFrame fin op (bit7 m) len key0 unmasked))
           | None => panic "index out of range"
           end
         else ret (Val (mkFrame fin op (bit7 m) len key0 payload0))
     else ret (Val (mkFrame fin op (bit7 m) len key0 []))) c
    = Ok (Val (mkFrame fin op (bit7 m) len key plain)) (set_inbound c rest).
Proof.
  intros Hm Hlen Hpay Hin.
  assert (Hkey : (if bit7 m then ReadFull 4 else ret (Val [])) c
                 = Ok (Val key) (set_inbound c (payload ++ rest))).
  { destruct Hm as [[-> ->] | [-> Hk]].
    - rewrite bit7_x00. cbn [app] in Hin. unfold ret.
      destruct c; cbn in *; subst; reflexivity.
    - rewrite bit7_x80.
      apply ReadFull_app with (bs := key); [exact Hin|lia|lia]. }
  assert (Hplain : exists plain,
             if bit7 m then xor_mask key 0 payload = Some plain
             else plain = payload).
  { destruct Hm as [[-> ->] | [-> Hk]].
    - rewrite bit7_x00. eauto.
    - rewrite bit7_x80. apply xor_mask_some. exact Hk. }
  destruct Hplain as [plain Hplain]. exists plain. split; [exact Hplain|].
  rewrite (bind_Ok _ _ _ _ _ Hkey).
  destruct (Z.ltb_spec 0 len) as [Hpos | Hzero].
  - destruct (Z.ltb_spec maxInt len) as [|_]; [lia|].
    erewrite bind_Ok;
      [|apply ReadFull_app with (bs := payload) (rest := rest);
        [reflexivity|lia|lia]].
    rewrite set_inbound_twice.
    destruct (bit7 m).
    + rewrite Hplain. reflexivity.
    + subst plain. reflexivity.
  - assert (payload = []) by (destruct payload; [reflexivity|cbn in Hpay; lia]).
    subst payload. cbn [app].
    assert (plain = []).
    { destruct (bit7 m); [cbn in Hplain; congruence|assumption]. }
    subst plain. reflexivity.
Qed.

Lemma ReadFrame_wire c b0 m len key payload rest :
  (m = x00 /\ key = []) \/ (m = x80 /\ length key = 4%nat) ->
  0 <= len <= maxInt -> Z.of_nat (length payload) = len ->
  inbound c = b0 :: lenField m len ++ key ++ payload ++ rest ->
  exists plain,
    (if bit7 m then xor_mask key 0 payload = Some plain else plain = payload) /\
    ReadFrame c
    = Ok (Val (mkFrame (bit7 b0) (b0 .& x0f) (bit7 m) len key plain))
         (set_inbound c rest).
Proof.
  intros Hm Hlen Hpay Hin.
  assert (Hm' : m = x00 \/ m = x80) by (destruct Hm as [[? _]|[? _]]; auto).
  unfold ReadFrame.
  erewrite bind_Ok;
    [|apply ReadFull_app with (bs := [b0]); [exact Hin|reflexivity|lia]].
  cbn [hd]. fold (bit7 b0).
  unfold lenField in Hin |- *.
  destruct (Z.leb_spec len 125) as [H125 | H125];
    [|destruct (Z.leb_spec len 65535) as [H16 | H16]].
  - (* 7-bit length *)
    destruct (@low7_or_mask len m) as [Hlow Hbit]; [lia|exact Hm'|].
    cbn [app] in Hin |- *.
    erewrite bind_Ok;
      [|apply ReadFull_app with (bs := [byte.of_Z len .| m])
          (rest := key ++ payload ++ rest); [reflexivity|reflexivity|lia]].
    cbn [hd]. fold (bit7 (byte.of_Z len .| m)). rewrite Hlow, Hbit.
    destruct (Z.eqb_spec len 126) as [|_]; [lia|].
    destruct (Z.eqb_spec len 127) as [|_]; [lia|].
    rewrite set_inbound_twice.
    erewrite (bind_Ok (ret (Val len))) by reflexivity.
    destruct (ReadFrame_tail (set_inbound c (key ++ payload ++ rest))
                (bit7 b0) (b0 .& x0f) m len key payload rest) as [plain [Hp Hr]];
      try assumption; try reflexivity.
    exists plain. split; [exact Hp|]. exact Hr.
  - (* 16-bit length *)
    destruct (@low7_or_mask 126 m) as [Hlow Hbit]; [lia|exact Hm'|].
    cbn [app] in Hin |- *.
    erewrite bind_Ok;
      [|apply ReadFull_app with (bs := [byte.of_Z 126 .| m])
          (rest := BigEndian.PutUint16 (uint16 len) ++ key ++ payload ++ rest);
        [reflexivity|reflexivity|lia]].
    cbn [hd]. fold (bit7 (byte.of_Z 126 .| m)). rewrite Hlow, Hbit.
    change (126 =? 126) with true. cbv iota.
    rewrite set_inbound_twice.
    assert (Hu : uint16 len = len) by (unfold uint16; apply Z.mod_small; lia).
    erewrite bind_Ok; cycle 1.
    { erewrite bind_Ok;
        [|apply ReadFull_app with (bs := BigEndian.PutUint16 (uint16 len))
            (rest := key ++ payload ++ rest); [reflexivity|reflexivity|lia]].
      cbv beta iota. rewrite Hu, Uint16_PutUint16 by lia. reflexivity. }
    rewrite set_inbound_twice.
    destruct (ReadFrame_tail (set_inbound c (key ++ payload ++ rest))
                (bit7 b0) (b0 .& x0f) m len key payload rest)
      as [plain [Hp Hr]];
      try assumption; try reflexivity.
    exists plain. split; [exact Hp|]. exact Hr.
  - (* 64-bit length *)
    destruct (@low7_or_mask 127 m) as [Hlow Hbit]; [lia|exact Hm'|].
    cbn [app] in Hin |- *.
    erewrite bind_Ok;
      [|apply ReadFull_app with (bs := [byte.of_Z 127 .| m])
          (rest := BigEndian.PutUint64 len ++ key ++ payload ++ rest);
        [reflexivity|reflexivity|lia]].
    cbn [hd]. fold (bit7 (byte.of_Z 127 .| m)). rewrite Hlow, Hbit.
    change (127 =? 126) with false. change (127 =? 127) with true. cbv iota.
    rewrite set_inbound_twice.
    erewrite bind_Ok; cycle 1.
    { erewrite bind_Ok;
        [|apply ReadFull_app with (bs := BigEndian.PutUint64 len)
            (rest := key ++ payload ++ rest); [reflexivity|reflexivity|lia]].
      cbv beta iota. rewrite Uint64_PutUint64 by (unfold maxInt in Hlen; lia).
      reflexivity. }
    rewrite set_inbound_twice.
    destruct (ReadFrame_tail (set_inbound c (key ++ payload ++ rest))
                (bit7 b0) (b0 .& x0f) m len key payload rest)
      as [plain [Hp Hr]];
      try assumption; try reflexivity.
    exists plain. split; [exact Hp|]. exact Hr.
Qed.

(** [ReadFrame] inverts the wire format on every valid frame, masked or
    not. *)
Lemma ReadFrame_wire_frame (f : Frame) (c : Conn) (rest : list byte) :
  valid_frame f -> inbound c = wire f ++ rest ->
  ReadFrame c = Ok (Val f) (set_inbound c rest).
Proof.
  intros (Hop & Hlen & Hmax & Hkey) Hin. unfold wire in Hin.
  destruct (header0_decode f Hop) as [Hfin Hopc].
  destruct (Masked f) eqn:Hm.
  - destruct (xor_mask_some (MaskKey f) Hkey (Payload f) 0) as [masked Hx].
    unfold mask in Hin. rewrite Hx in Hin.
    destruct (ReadFrame_wire c (header0 f) x80 (PayloadLen f) (MaskKey f)
                masked rest) as [plain [Hp Hr]].
    + right. split; [reflexivity|exact Hkey].
    + lia.
    + rewrite (xor_mask_length _ _ _ _ Hx). symmetry. exact Hlen.
    + rewrite Hin. cbn [app]. rewrite <- !app_assoc. reflexivity.
    + rewrite bit7_x80 in Hp, Hr.
      rewrite (xor_mask_involutive _ _ _ _ Hx) in Hp. injection Hp as <-.
      rewrite Hfin, Hopc in Hr. rewrite Hr, <- Hm, frame_eta. reflexivity.
  - destruct (MaskKey f) as [|k ks] eqn:Hk; [|discriminate Hkey].
    destruct (ReadFrame_wire c (header0 f) x00 (PayloadLen f) []
                (Payload f) rest) as [plain [Hp Hr]].
    + left. split; reflexivity.
    + lia.
    + symmetry. exact Hlen.
    + rewrite Hin. cbn [app]. rewrite <- !app_assoc. reflexivity.
    + rewrite bit7_x00 in Hp, Hr. subst plain.
      rewrite Hfin, Hopc in Hr. rewrite Hr, <- Hm, <- Hk, frame_eta.
      reflexivity.
Qed.

Lemma wire_length f : (2 <= length (wire f))%nat.
Proof.
  unfold wire, lenField. cbn [length].
  destruct (_ <=? 125); [|destruct (_ <=? 65535)];
    cbn [app length]; lia.
Qed.

(** ** What the two encoders write *)

(** The server's frame on the wire. *)
Lemma sendFrame_written payload c :
  Z.of_nat (length payload) <= maxInt -> wbroken c = false ->
  sendFrame payload c
  = Ok tt (set_written c (written c ++
             x81 :: lenField x00 (Z.of_nat (length payload)) ++ payload)).
Proof.
  intros Hlen Hw. unfold sendFrame. cbv zeta. cbn [PayloadLen].
  rewrite uint64_small by lia.   erewrite bind_Ok; [|apply Write_ok; exact Hw]. cbv beta iota.
  erewrite bind_Ok; [|apply Write_ok; exact Hw]. cbv beta iota.
  unfold ret. rewrite set_written_twice. cbn [written set_written].
  do 2 f_equal. rewrite <- app_assoc. f_equal.
  unfold lenField.
  destruct (Z.of_nat (length payload) <=? 125).
  - rewrite or_x00. reflexivity.
  - destruct (Z.of_nat (length payload) <=? 65535); reflexivity.
Qed.

Lemma Client_sendFrame_written f c masked :
  wbroken c = false ->
  xor_mask (MaskKey f) 0 (Payload f) = Some masked ->
  Client.sendFrame f c
  = Ok None (set_written c (written c ++
               header0 f :: lenField x80 (PayloadLen f) ++ MaskKey f ++ masked)).
Proof.
  intros Hw Hx. unfold Client.sendFrame. cbv zeta. rewrite Hx. cbv beta iota.
  erewrite bind_Ok; [|apply Write_ok; exact Hw]. cbv beta iota.
  erewrite bind_Ok; [|apply Write_ok; exact Hw]. cbv beta iota.
  unfold ret. rewrite set_written_twice. cbn [written set_written].
  do 2 f_equal. rewrite <- app_assoc. f_equal.
  unfold lenField, header0.
  destruct (PayloadLen f <=? 125); [reflexivity|].
  destruct (PayloadLen f <=? 65535); rewrite <- app_assoc; reflexivity.
Qed.

Lemma Client_sendFrame_wire (f : Frame) (c : Conn) :
  valid_frame f -> Masked f = true -> wbroken c = false ->
  Client.sendFrame f c = Ok None (set_written c (written c ++ wire f)).
Proof.
  intros (Hop & Hlen & Hmax & Hkey) Hm Hw. rewrite Hm in Hkey.
  destruct (xor_mask_some (MaskKey f) Hkey (Payload f) 0) as [masked Hx].
  rewrite (Client_sendFrame_written f c masked Hw Hx).
  unfold wire, mask. rewrite Hm, Hx. reflexivity.
Qed.

Lemma bit7_or_x80 (b : byte) : bit7 (b .| x80) = true.
Proof. destruct b; reflexivity. Qed.

(** X16.  Whatever the frame, byte 1 of what [Client.sendFrame] writes carries
    the mask bit: the field [Masked] is not consulted. *)
Lemma Client_sendFrame_sets_mask_bit (f : Frame) (c c' : Conn) :
  Client.sendFrame f c = Ok None c' ->
  exists out, written c' = written c ++ out /\ bit7 (nth 1 out x00) = true.
Proof.
  unfold Client.sendFrame. cbv zeta.
  destruct (xor_mask (MaskKey f) 0 (Payload f)) as [masked|]; [|discriminate].
  unfold bind, Write, ret.
  destruct (wbroken c) eqn:Hw; [discriminate|].
  cbn [wbroken set_written]. rewrite Hw. intros H. injection H as <-.
  cbn [written set_written]. rewrite <- app_assoc. eexists. split; [reflexivity|].
  destruct (PayloadLen f <=? 125); [|destruct (PayloadLen f <=? 65535)];
    cbn [app nth]; apply bit7_or_x80.
Qed.

(** ** The frame codec round trip *)

(** C1, as the client's encoder has it.  For every valid frame [f] with
    [Masked f = true] (any FIN, any 4-bit opcode, a 4-byte key, a payload of
    [PayloadLen f] bytes) and a connection that accepts writes,
    [Client.sendFrame] writes a byte sequence whose byte 1 carries the mask
    bit and from which [ReadFrame] returns [f] itself, leaving whatever
    follows unread. *)
Theorem client_frame_roundtrip (f : Frame) (c : Conn) :
  valid_frame f -> Masked f = true -> wbroken c = false ->
  exists wire,
    Client.sendFrame f c = Ok None (set_written c (written c ++ wire)) /\
    bit7 (nth 1 wire x00) = true /\
    forall d rest, inbound d = wire ++ rest ->
                   ReadFrame d = Ok (Val f) (set_inbound d rest).
Proof.
  intros (Hop & Hlen & Hmax & Hkey) Hm Hw. rewrite Hm in Hkey.
  destruct (xor_mask_some (MaskKey f) Hkey (Payload f) 0) as [masked Hx].
  exists (header0 f :: lenField x80 (PayloadLen f) ++ MaskKey f ++ masked).
  split; [apply Client_sendFrame_written; assumption|]. split.
  - unfold lenField.
    destruct (Z.leb_spec (PayloadLen f) 125) as [H|H].
    + cbn [app nth]. apply (@low7_or_mask (PayloadLen f) x80); [lia|auto].
    + destruct (PayloadLen f <=? 65535); reflexivity.
  - intros d rest Hin.
    destruct (ReadFrame_wire d (header0 f) x80 (PayloadLen f) (MaskKey f)
                masked rest) as [plain [Hp Hr]].
    + right. split; [reflexivity|exact Hkey].
    + lia.
    + rewrite (xor_mask_length _ _ _ _ Hx). symmetry. exact Hlen.
    + rewrite Hin. cbn [app]. rewrite <- !app_assoc. reflexivity.
    + rewrite bit7_x80 in Hp, Hr.
      rewrite (xor_mask_involutive _ _ _ _ Hx) in Hp. injection Hp as <-.
      destruct (header0_decode f Hop) as [-> ->] in Hr.
      rewrite Hr, <- Hm, frame_eta. reflexivity.
Qed.

Lemma client_frame_roundtrip_witness :
  let f := mkFrame true x01 true 5 [x11; x22; x33; x44] (bytes_of "Hello") in
  exists wire,
    Client.sendFrame f conn0 = Ok None (set_written conn0 (written conn0 ++ wire)) /\
    bit7 (nth 1 wire x00) = true /\
    forall d rest, inbound d = wire ++ rest ->
                   ReadFrame d = Ok (Val f) (set_inbound d rest).
Proof.
  intro f. apply (client_frame_roundtrip f conn0).
  - unfold valid_frame, maxInt. cbn. repeat split; lia.
  - reflexivity.
  - reflexivity.
Defined.

(** C1 fails on unmasked frames.  [Client.sendFrame] never reads [Masked f]:
    for the valid, empty, unmasked text frame it writes 0x81 0x80, mask bit
    set and no key, and [ReadFrame] on those two bytes ends in [io.EOF]
    while looking for the key. *)
Lemma unmasked_frame_no_roundtrip :
  let f := mkFrame true x01 false 0 [] [] in
  valid_frame f /\ Masked f = false /\
  Client.sendFrame f conn0 = Ok None (set_written conn0 [x81; x80]) /\
  bit7 (nth 1 [x81; x80] x00) = true /\
  ReadFrame (set_inbound conn0 [x81; x80]) = Ok (Err EOF) conn0 /\
  ReadFrame (set_inbound conn0 [x81; x80]) <> Ok (Val f) conn0.
Proof.
  cbv zeta. split; [|repeat split; try discriminate].
  unfold valid_frame, maxInt. cbn. repeat split; lia.
Qed.

(** ** Length tiers and the server's frames *)

(** Both encoders at a payload of any length. *)
Lemma tiers_every_length (payload : list byte) :
  Z.of_nat (length payload) <= maxInt ->
  server_tier_correct payload /\ client_tier_correct payload.
Proof.
  intros Hmax. unfold server_tier_correct, client_tier_correct.
  set (n := Z.of_nat (length payload)) in *.
  assert (Hn : 0 <= n <= maxInt) by (unfold n; lia).
  split.
  - intros c Hw. exists (lenField x00 n). split; [|split].
    + apply sendFrame_written; [exact Hmax | exact Hw].
    + apply (lenField_tier x00 n); auto.
    + intros d rest Hin.
      destruct (ReadFrame_wire d x81 x00 n [] payload rest)
        as [plain [_ Hr]]; auto.
      eexists. split; [exact Hr|reflexivity].
  - intros fin op key c Hop Hkey Hw.
    destruct (xor_mask_some key Hkey payload 0) as [masked Hx].
    exists (lenField x80 n), masked. split; [|split].
    + apply (Client_sendFrame_written (mkFrame fin op true n key payload) c
               masked Hw Hx).
    + apply (lenField_tier x80 n); auto.
    + intros d rest Hin.
      destruct (ReadFrame_wire d (if fin then x80 .| op else op) x80 n key
                               masked rest) as [plain [_ Hr]]; auto.
      * rewrite (xor_mask_length _ _ _ _ Hx). reflexivity.
      * eexists. split; [exact Hr|reflexivity].
Qed.

(** C9.  For a payload of 0, 125, 126, 65535 or 65536 bytes both encoders
    write the length in its tier (the 7-bit indicator up to 125; 126 and two
    big-endian bytes up to 65535; 127 and eight big-endian bytes above) and
    [ReadFrame] recovers exactly that length from what was written. *)
Theorem length_tiers (payload : list byte) :
  In (Z.of_nat (length payload)) [0; 125; 126; 65535; 65536] ->
  server_tier_correct payload /\ client_tier_correct payload.
Proof.
  intros Hn. apply tiers_every_length.
  unfold maxInt. cbn [In] in Hn. lia.
Qed.

Lemma length_tiers_witness :
  server_tier_correct big_payload /\ client_tier_correct big_payload.
Proof.
  apply (length_tiers big_payload).
  vm_compute. auto 6.
Defined.

(** C10.  For a payload of any length the server's [sendFrame] writes one
    frame: byte 0 is 0x81, the mask bit of byte 1 is clear, the payload
    follows the header unchanged, a payload above 65535 bytes gets the
    indicator 127 and the 8-byte length, and [ReadFrame] reads the whole of
    it back as a single final unmasked text frame. *)
Theorem server_frame_single_unmasked (payload : list byte) (c : Conn) :
  let n := Z.of_nat (length payload) in
  n <= maxInt -> wbroken c = false ->
  exists hdr,
    sendFrame payload c = Ok tt (set_written c (written c ++ hdr ++ payload)) /\
    nth 0 hdr x00 = x81 /\
    bit7 (nth 1 hdr x00) = false /\
    (65535 < n -> hdr = [x81; x7f] ++ BigEndian.PutUint64 n) /\
    forall d rest, inbound d = hdr ++ payload ++ rest ->
      ReadFrame d
      = Ok (Val (mkFrame true x01 false n [] payload)) (set_inbound d rest).
Proof.
  intros n Hmax Hw. exists (x81 :: lenField x00 n).
  split; [|split; [|split; [|split]]].
  - apply sendFrame_written; assumption.
  - reflexivity.
  - unfold lenField. cbn [nth].
    destruct (Z.leb_spec n 125) as [H|H].
    + cbn [nth]. apply (@low7_or_mask n x00); [unfold n; lia|auto].
    + destruct (n <=? 65535); reflexivity.
  - intros H. unfold lenField.
    destruct (Z.leb_spec n 125); [lia|].
    destruct (Z.leb_spec n 65535); [lia|]. reflexivity.
  - intros d rest Hin.
    destruct (ReadFrame_wire d x81 x00 n [] payload rest)
      as [plain [Hp Hr]]; auto.
    + unfold n. lia.
    + rewrite bit7_x00 in Hp. subst plain. exact Hr.
Qed.

Lemma server_frame_single_unmasked_witness :
  exists hdr,
    sendFrame big_payload conn0
    = Ok tt (set_written conn0 (written conn0 ++ hdr ++ big_payload)) /\
    nth 0 hdr x00 = x81 /\
    bit7 (nth 1 hdr x00) = false /\
    (65535 < 65536 -> hdr = [x81; x7f] ++ BigEndian.PutUint64 65536) /\
    forall d rest, inbound d = hdr ++ big_payload ++ rest ->
      ReadFrame d
      = Ok (Val (mkFrame true x01 false 65536 [] big_payload))
           (set_inbound d rest).
Proof.
  assert (H1 : Z.of_nat (length big_payload) <= maxInt)
    by (vm_compute; discriminate).
  exact (server_frame_single_unmasked big_payload conn0 H1 eq_refl).
Defined.

(** ** The accept key *)

(** FIPS 180-4 and RFC 4648 test vectors for the two library models. *)
Example sha1_abc :
  map byte.unsigned (sha1.Sum (bytes_of "abc"))
  = [0xa9; 0x99; 0x3e; 0x36; 0x47; 0x06; 0x81; 0x6a; 0xba; 0x3e;
     0x25; 0x71; 0x78; 0x50; 0xc2; 0x6c; 0x9c; 0xd0; 0xd8; 0x9d].
Proof. vm_compute. reflexivity. Qed.

Example sha1_two_blocks :
  map byte.unsigned
      (sha1.Sum (bytes_of
         "abcdbcdecdefdefgefghfghighijhijkijkljklmklmnlmnomnopnopq"))
  = [0x84; 0x98; 0x3e; 0x44; 0x1c; 0x3b; 0xd2; 0x6e; 0xba; 0xae;
     0x4a; 0xa1; 0xf9; 0x51; 0x29; 0xe5; 0xe5; 0x46; 0x70; 0xf1].
Proof. vm_compute. reflexivity. Qed.

Example base64_vectors :
  base64.EncodeToString (bytes_of "") = "" /\
  base64.EncodeToString (bytes_of "f") = "Zg==" /\
  base64.EncodeToString (bytes_of "fo") = "Zm8=" /\
  base64.EncodeToString (bytes_of "foo") = "Zm9v" /\
  base64.EncodeToString (bytes_of "foobar") = "Zm9vYmFy".
Proof. vm_compute. repeat split. Qed.

(** C2.  For every key [k] the accept value is the base64 encoding of the
    SHA-1 digest of [k] followed by the protocol's GUID; for the sample key
    of RFC 6455 it is [s3pPLMBiTxaQ9kYGzzhZRbK+xOo=]. *)
Theorem accept_key :
  (forall k : string,
     generateWebSocketAcceptKey k
     = base64.EncodeToString
         (sha1.Sum (bytes_of (k ++ "258EAFA5-E914-47DA-95CA-C5AB0DC85B11")))) /\
  generateWebSocketAcceptKey "dGhlIHNhbXBsZSBub25jZQ=="
  = "s3pPLMBiTxaQ9kYGzzhZRbK+xOo=".
Proof.
  split.
  - intros k. reflexivity.
  - vm_compute. reflexivity.
Qed.

(** ** The client handshake *)

(** [Handshake] on a connection that accepts writes, has 16 random bytes
    and some response to read. *)
Lemma Handshake_reads (c : Conn) (key rest : list byte) :
  entropy c = key ++ rest -> length key = 16%nat -> wbroken c = false ->
  inbound c <> [] ->
  Client.Handshake c
  = let response := firstn 1024 (inbound c) in
    if (length response <? 32)%nat then Panic "slice bounds out of range"
    else
      let c' := mkConn (skipn 1024 (inbound c))
                       (written c ++ bytes_of (Client.handshakeRequest
                                                 (base64.EncodeToString key)))
                       false (closed c) rest in
      if String.eqb (string_of (skipn 9 (firstn 32 response)))
                    "101 Switching Protocols"
      then Ok None c'
      else Ok (Some (Errorf "invalid handshake response")) c'.
Proof.
  intros He Hk Hw Hin. unfold Client.Handshake.
  assert (Hr : rand_Read 16 c = Ok (Val key) (set_entropy c rest)).
  { unfold rand_Read. rewrite He, length_app, Hk.
    destruct (Nat.ltb_spec (16 + length rest) 16); [lia|].
    rewrite <- Hk at 1 2.
    rewrite firstn_app, Nat.sub_diag, firstn_all, firstn_O, app_nil_r.
    rewrite skipn_app, Nat.sub_diag, skipn_all, skipn_O. reflexivity. }
  rewrite (bind_Ok _ _ _ _ _ Hr). cbv beta iota.
  erewrite bind_Ok; [|apply Write_ok; exact Hw]. cbv beta iota.
  unfold bind, Read. cbn [inbound set_written set_entropy].
  destruct (inbound c) as [|b bs] eqn:E; [congruence|].
  cbv zeta.
  destruct (length (firstn 1024 (b :: bs)) <? 32)%nat; [reflexivity|].
  unfold ret. cbn [closed written wbroken entropy inbound set_inbound set_written set_entropy].
  destruct (String.eqb _ _);
    unfold set_inbound, set_written, set_entropy;
    cbn [inbound written wbroken closed entropy]; rewrite Hw; reflexivity.
Qed.

(** C8 fails.  On a response of fewer than 32 bytes [Handshake] does not
    return: the slice [[9:32]] of the bytes received is out of range and the
    run panics. *)
Theorem Handshake_short_response_panics (c : Conn) (key rest : list byte) :
  entropy c = key ++ rest -> length key = 16%nat -> wbroken c = false ->
  inbound c <> [] -> (length (inbound c) < 32)%nat ->
  Client.Handshake c = Panic "slice bounds out of range".
Proof.
  intros He Hk Hw Hin Hshort.
  rewrite (Handshake_reads c key rest He Hk Hw Hin). cbv zeta.
  destruct (Nat.ltb_spec (length (firstn 1024 (inbound c))) 32) as [|H];
    [reflexivity|].
  rewrite length_firstn in H. lia.
Qed.

Lemma Handshake_short_response_panics_witness :
  Client.Handshake (mkConn bad_request [] false false (repeat x00 16))
  = Panic "slice bounds out of range".
Proof.
  apply (Handshake_short_response_panics _ (repeat x00 16) []);
    [reflexivity|reflexivity|reflexivity|discriminate|vm_compute; lia].
Defined.

(** ** The server handshake *)

Section ServerHandshake.

Variable json_Unmarshal_ok : list byte -> bool.

(** C7, as the code has it.  On a parsed upgrade request the server closes
    the connection without writing anything unless the first [Connection]
    value contains [Upgrade] as a substring, case as written, and the first
    [Upgrade] value is exactly [websocket]; when both hold it writes the 101
    response with the accept key of the request's [Sec-WebSocket-Key] and
    serves frames from there, closing at the end. *)
Theorem server_handshake (request : http.Request) (c : Conn) :
  wbroken c = false ->
  let h := http.Header_ request in
  handleWebSocket json_Unmarshal_ok (Val request) c
  = if code_handshake_ok h then
      let response :=
        handshakeResponse
          (generateWebSocketAcceptKey (http.Get h "Sec-WebSocket-Key")) in
      (_ <- serveFrames json_Unmarshal_ok (S (length (inbound c))) ;; Close)
        (set_written c (written c ++ bytes_of response))
    else Ok tt (set_closed c).
Proof.
  intros Hw h. unfold handleWebSocket, code_handshake_ok. fold h.
  destruct (Contains (http.Get h "Connection") "Upgrade");
    [destruct (String.eqb (http.Get h "Upgrade") "websocket")|];
    cbn [negb orb andb]; try reflexivity.
  cbv zeta. unfold bind at 1 2. unfold Write at 1. rewrite Hw.
  reflexivity.
Qed.

End ServerHandshake.

Lemma server_handshake_witness :
  handleWebSocket (fun _ => true) (Val browser_upgrade) conn0
  = Ok tt (set_closed
             (set_written conn0
                (bytes_of (handshakeResponse "s3pPLMBiTxaQ9kYGzzhZRbK+xOo=")))).
Proof.
  exact (server_handshake (fun _ => true) browser_upgrade conn0 eq_refl).
Defined.

(** C7 fails as stated.  [Connection: upgrade] holds the token without
    regard to case and [Upgrade] is [websocket], yet the server closes the
    connection and writes nothing. *)
Lemma lowercase_upgrade_refused :
  spec_handshake_ok (http.Header_ lowercase_upgrade) = true /\
  handleWebSocket (fun _ => true) (Val lowercase_upgrade) conn0
  = Ok tt (set_closed conn0) /\
  written (set_closed conn0) = [].
Proof. vm_compute. repeat split. Qed.

(** The other direction: a value that holds the letters but not the token
    is accepted. *)
Lemma substring_upgrade_accepted :
  spec_handshake_ok (http.Header_ substring_upgrade) = false /\
  handleWebSocket (fun _ => true) (Val substring_upgrade) conn0
  = Ok tt (set_closed
             (set_written conn0
                (bytes_of (handshakeResponse "s3pPLMBiTxaQ9kYGzzhZRbK+xOo=")))).
Proof. vm_compute. repeat split. Qed.

(** A request that [http.ReadRequest] rejects: closed, nothing written. *)
Lemma failed_ReadRequest_closes (json : list byte -> bool) (e : error) (c : Conn) :
  handleWebSocket json (Err e) c = Ok tt (set_closed c).
Proof. reflexivity. Qed.

(** ** The loop bounds are never reached *)

Lemma shrinks_ret {A} (a : A) : shrinks (ret a).
Proof. intros c a' c' H. injection H as _ <-. lia. Qed.

Lemma shrinks_panic {A} msg : shrinks (@panic A msg).
Proof. intros c a c' H. discriminate H. Qed.

Lemma shrinks_bind {A B} (m : M A) (k : A -> M B) :
  shrinks m -> (forall a, shrinks (k a)) -> shrinks (bind m k).
Proof.
  intros Hm Hk c b c' H. unfold bind in H.
  destruct (m c) as [a c1| |] eqn:E; try discriminate H.
  specialize (Hm _ _ _ E). specialize (Hk _ _ _ _ H). lia.
Qed.

Lemma bounded_ret {A} (a : A) : bounded (ret a).
Proof. intros c. discriminate. Qed.

Lemma bounded_panic {A} msg : bounded (@panic A msg).
Proof. intros c. discriminate. Qed.

Lemma bounded_bind {A B} (m : M A) (k : A -> M B) :
  bounded m -> (forall a, bounded (k a)) -> bounded (bind m k).
Proof.
  intros Hm Hk c. unfold bind.
  destruct (m c) as [a c1| |] eqn:E; try discriminate.
  - apply Hk.
  - exfalso. exact (Hm _ E).
Qed.

Lemma ReadFull_shrinks n : shrinks (ReadFull n).
Proof.
  intros c a c' H. unfold ReadFull in H.
  destruct (n <=? 0); [injection H as _ <-; lia|].
  destruct (inbound c) as [|b bs] eqn:E; [injection H as _ <-; rewrite E; lia|].
  destruct (Z.of_nat (length (b :: bs)) <? n); injection H as _ <-;
    cbn [inbound set_inbound length].
  - lia.
  - rewrite length_skipn. cbn [length]. lia.
Qed.

Lemma ReadFull_strict n c bs c' :
  0 < n -> ReadFull n c = Ok (Val bs) c' ->
  (length (inbound c') < length (inbound c))%nat.
Proof.
  intros Hn H. unfold ReadFull in H.
  destruct (Z.leb_spec n 0); [lia|].
  destruct (inbound c) as [|b l] eqn:E; [discriminate H|].
  destruct (Z.of_nat (length (b :: l)) <? n); [discriminate H|].
  injection H as _ <-. cbn [inbound set_inbound].
  rewrite length_skipn. cbn [length]. lia.
Qed.

Lemma ReadFull_bounded n : bounded (ReadFull n).
Proof.
  intros c. unfold ReadFull.
  destruct (n <=? 0); [discriminate|].
  destruct (inbound c); [discriminate|].
  destruct (_ <? n); discriminate.
Qed.

Lemma Write_shrinks b : shrinks (Write b).
Proof.
  intros c a c' H. unfold Write in H.
  destruct (wbroken c); injection H as _ <-; cbn; lia.
Qed.

Lemma Write_bounded b : bounded (Write b).
Proof. intros c. unfold Write. destruct (wbroken c); discriminate. Qed.

Lemma rand_Read_shrinks n : shrinks (rand_Read n).
Proof.
  intros c a c' H. unfold rand_Read in H.
  destruct (_ <? n)%nat; injection H as _ <-; cbn; lia.
Qed.

Lemma rand_Read_bounded n : bounded (rand_Read n).
Proof. intros c. unfold rand_Read. destruct (_ <? n)%nat; discriminate. Qed.

Ltac loop_free :=
  repeat first
    [ apply shrinks_ret | apply shrinks_panic | apply ReadFull_shrinks
    | apply Write_shrinks | apply rand_Read_shrinks
    | apply bounded_ret | apply bounded_panic | apply ReadFull_bounded
    | apply Write_bounded | apply rand_Read_bounded
    | apply shrinks_bind; [|intros ?] | apply bounded_bind; [|intros ?]
    | match goal with
      | |- shrinks (match ?x with _ => _ end) => destruct x
      | |- bounded (match ?x with _ => _ end) => destruct x
      end ].

(** What follows the first byte in [ReadFrame]. *)
Lemma ReadFrame_shrinks : shrinks ReadFrame.
Proof. unfold ReadFrame. loop_free. Qed.

Lemma ReadFrame_bounded : bounded ReadFrame.
Proof. unfold ReadFrame. loop_free. Qed.

Lemma try_ReadFull_strict {A} n (k : list byte -> M (result A)) c a c' :
  0 < n -> (forall bs, shrinks (k bs)) ->
  (try bs <- ReadFull n ;; k bs) c = Ok (Val a) c' ->
  (length (inbound c') < length (inbound c))%nat.
Proof.
  intros Hn Hk H. unfold bind in H.
  destruct (ReadFull n c) as [[bs|e] c1| |] eqn:E; try discriminate H.
  pose proof (ReadFull_strict _ _ _ _ Hn E). pose proof (Hk _ _ _ _ H). lia.
Qed.

Lemma ReadFrame_strict c f c' :
  ReadFrame c = Ok (Val f) c' ->
  (length (inbound c') < length (inbound c))%nat.
Proof.
  unfold ReadFrame. intros H.
  eapply try_ReadFull_strict; [| |exact H]; [lia|].
  intros bs. loop_free.
Qed.

Section Totality.

Variable json_Unmarshal_ok : list byte -> bool.

Lemma sendFrame_inbound payload c c' :
  sendFrame payload c = Ok tt c' -> inbound c' = inbound c.
Proof.
  unfold sendFrame, bind, Write, ret. cbv zeta.
  destruct (wbroken c) eqn:E; cbn [wbroken set_written]; rewrite ?E;
    intros H; injection H as <-; reflexivity.
Qed.

Lemma sendFrame_bounded payload : bounded (sendFrame payload).
Proof. unfold sendFrame. cbv zeta. loop_free. Qed.

Lemma serveFrames_total (fuel : nat) : forall c,
  (length (inbound c) < fuel)%nat ->
  serveFrames json_Unmarshal_ok fuel c <> OutOfFuel.
Proof.
  induction fuel as [|n IH]; intros c Hc; [lia|].
  cbn [serveFrames]. unfold bind at 1.
  destruct (ReadFrame c) as [[frame|e] c1| |] eqn:E; try discriminate.
  - pose proof (ReadFrame_strict _ _ _ E) as Hlt.
    assert (Hn : (length (inbound c1) < n)%nat) by lia.
    repeat match goal with
           | |- (if ?b then _ else _) _ <> _ => destruct b
           end; try discriminate; try (apply IH; exact Hn).
    unfold bind.
    destruct (sendFrame responseJSON c1) as [[] c2| |] eqn:E2;
      try discriminate.
    + apply IH. rewrite (sendFrame_inbound _ _ _ E2). exact Hn.
    + exfalso. exact (sendFrame_bounded _ _ E2).
  - exfalso. exact (ReadFrame_bounded _ E).
Qed.

(** X21.  The frame loop of [handleWebSocket] ends with its input: every frame
    read takes at least two bytes, so on a stream of any length the handler
    returns or panics. *)
Lemma handleWebSocket_total request c :
  handleWebSocket json_Unmarshal_ok request c <> OutOfFuel.
Proof.
  unfold handleWebSocket, bind, ret, Close.
  destruct request as [request|e]; [|discriminate].
  destruct (_ || _); [discriminate|].
  unfold Write. destruct (wbroken c); [discriminate|].
  destruct (serveFrames _ _ _) as [[] c1| |] eqn:E; try discriminate.
  exfalso. revert E. apply serveFrames_total.
  cbn [inbound set_written]. lia.
Qed.

End Totality.

(** The client's loops. *)
Lemma generateMaskKey_length c key c' :
  generateMaskKey c = Ok key c' ->
  length key = 4%nat /\ inbound c' = inbound c /\ wbroken c' = wbroken c /\
  written c' = written c.
Proof.
  unfold generateMaskKey, bind, rand_Read, ret.
  destruct (Nat.ltb_spec (length (entropy c)) 4) as [Hl|Hl]; intros H;
    injection H as <- <-; cbn [inbound wbroken written set_entropy];
    repeat split; try reflexivity.
  destruct (entropy c) as [|b0 [|b1 [|b2 [|b3 l]]]]; cbn in Hl |- *;
    (lia || reflexivity).
Qed.

Lemma generateMaskKey_bounded : bounded generateMaskKey.
Proof. unfold generateMaskKey. loop_free. Qed.

Lemma generateMaskKey_ok c :
  exists key c1,
    generateMaskKey c = Ok key c1 /\ length key = 4%nat /\
    inbound c1 = inbound c /\ wbroken c1 = wbroken c /\
    written c1 = written c.
Proof.
  destruct (generateMaskKey c) as [key c1| |] eqn:E.
  - exists key, c1. split; [reflexivity|].
    apply (generateMaskKey_length _ _ _ E).
  - exfalso. revert E. unfold generateMaskKey, bind, rand_Read, ret.
    destruct (_ <? 4)%nat; discriminate.
  - exfalso. exact (generateMaskKey_bounded _ E).
Qed.

Lemma Client_sendFrame_bounded f : bounded (Client.sendFrame f).
Proof. unfold Client.sendFrame. cbv zeta. loop_free. Qed.

Lemma Client_sendFrame_inbound f c r c' :
  Client.sendFrame f c = Ok r c' -> inbound c' = inbound c.
Proof.
  unfold Client.sendFrame, bind, Write, ret. cbv zeta.
  destruct (xor_mask _ _ _); [|discriminate].
  destruct (wbroken c) eqn:E; cbn [wbroken set_written]; rewrite ?E;
    intros H; injection H as _ <-; reflexivity.
Qed.

Lemma sendPong_bounded payload : bounded (Client.sendPong payload).
Proof.
  unfold Client.sendPong.
  apply bounded_bind; [apply generateMaskKey_bounded|].
  intros key. apply Client_sendFrame_bounded.
Qed.

Lemma sendPong_inbound payload c r c' :
  Client.sendPong payload c = Ok r c' -> inbound c' = inbound c.
Proof.
  unfold Client.sendPong, bind.
  destruct (generateMaskKey c) as [key c1| |] eqn:E; try discriminate.
  intros H. rewrite (Client_sendFrame_inbound _ _ _ _ H).
  apply (generateMaskKey_length _ _ _ E).
Qed.

Lemma readFrames_total (fuel : nat) : forall buf op c,
  (length (inbound c) < fuel)%nat ->
  Client.readFrames fuel buf op c <> OutOfFuel.
Proof.
  induction fuel as [|n IH]; intros buf op c Hc; [lia|].
  cbn [Client.readFrames]. unfold bind at 1.
  destruct (ReadFrame c) as [[frame|e] c1| |] eqn:E.
  - pose proof (ReadFrame_strict _ _ _ E) as Hlt.
    assert (Hn : (length (inbound c1) < n)%nat) by lia.
    cbv zeta.
    repeat match goal with
           | |- (if ?b then _ else _) _ <> _ => destruct b
           end; try discriminate; try (apply IH; exact Hn).
    unfold bind.
    destruct (Client.sendPong (Payload frame) c1) as [r c2| |] eqn:E2;
      try discriminate.
    + apply IH. rewrite (sendPong_inbound _ _ _ _ E2). exact Hn.
    + exfalso. exact (sendPong_bounded _ _ E2).
  - destruct e; discriminate.
  - discriminate.
  - exfalso. exact (ReadFrame_bounded _ E).
Qed.

(** X22.  The loop of [ReadFullMessage] ends with its input, pings and their
    pongs included: it returns or panics. *)
Lemma ReadFullMessage_total c : Client.ReadFullMessage c <> OutOfFuel.
Proof. unfold Client.ReadFullMessage. apply readFrames_total. lia. Qed.

Lemma sendFragments_total (fuel : nat) : forall data first opcode c,
  (length data < fuel)%nat ->
  Client.sendFragments fuel data first opcode c <> OutOfFuel.
Proof.
  induction fuel as [|n IH]; intros data first opcode c Hlen; [lia|].
  cbn [Client.sendFragments].
  destruct (Z.ltb_spec 0 (Z.of_nat (length data))) as [Hpos|Hzero];
    [|discriminate].
  cbv zeta. unfold bind at 1.
  destruct (generateMaskKey c) as [key c1| |] eqn:Ek; try discriminate.
  2:{ exfalso. exact (generateMaskKey_bounded _ Ek). }
  unfold bind.
  match goal with
  | |- context [Client.sendFrame ?f c1] =>
    destruct (Client.sendFrame f c1) as [[e|] c2| |] eqn:Es; try discriminate;
      [|exfalso; exact (Client_sendFrame_bounded _ _ Es)]
  end.
  apply IH. unfold MaxFrameSize.
  destruct (Z.leb_spec (Z.of_nat (length data)) 65535);
    [cbn [length]; lia|].
  rewrite length_skipn. lia.
Qed.

(** X23.  The loop of [sendFragmentedMessage] ends: each round takes at least
    one byte off what remains to be sent. *)
Lemma sendFragmentedMessage_total data opcode c :
  Client.sendFragmentedMessage data opcode c <> OutOfFuel.
Proof. apply sendFragments_total. lia. Qed.

(** ** The sender's fragments *)

Lemma sendFragments_frames (fuel : nat) :
  forall data first opcode c,
    wbroken c = false -> byte.unsigned opcode < 16 ->
    (length data < fuel)%nat ->
    exists frames c',
      Client.sendFragments fuel data first opcode c = Ok None c' /\
      written c' = written c ++ concat (map wire frames) /\
      inbound c' = inbound c /\
      fragmented first opcode data frames.
Proof.
  induction fuel as [|n IH]; intros data first opcode c Hw Hop Hlen; [lia|].
  cbn [Client.sendFragments].
  destruct (Z.ltb_spec 0 (Z.of_nat (length data))) as [Hpos|Hzero].
  2:{ exists [], c. cbn [map concat fragmented]. rewrite app_nil_r.
      repeat split. destruct data; [reflexivity|cbn in Hzero; lia]. }
  cbv zeta.
  destruct (generateMaskKey_ok c) as (key & c1 & Ek & Hk & Hi1 & Hw1 & Hwr1).
  rewrite (bind_Ok _ _ _ _ _ Ek). cbv beta.
  set (isFinal := Z.of_nat (length data) <=? MaxFrameSize).
  set (chunk := if isFinal then data else firstn (Z.to_nat MaxFrameSize) data).
  set (remaining := if isFinal then [] else skipn (Z.to_nat MaxFrameSize) data).
  set (f := mkFrame isFinal (if first then opcode else x00) true
                    (uint64 (Z.of_nat (length chunk))) key chunk).
  assert (Hchunk : 0 < Z.of_nat (length chunk) <= MaxFrameSize /\
                   data = chunk ++ remaining /\
                   (isFinal = false ->
                    Z.of_nat (length chunk) = MaxFrameSize /\
                    (length remaining < n)%nat)).
  { unfold chunk, remaining, isFinal, MaxFrameSize in *.
    destruct (Z.leb_spec (Z.of_nat (length data)) 65535) as [H|H].
    - rewrite app_nil_r. repeat split; try lia; discriminate.
    - rewrite firstn_skipn, length_firstn, length_skipn.
      repeat split; lia. }
  destruct Hchunk as (Hc1 & Hc2 & Hc3).
  assert (Hvalid : valid_frame f).
  { unfold valid_frame, f. cbn [Opcode PayloadLen Payload MaskKey Masked].
    unfold MaxFrameSize in Hc1.
    rewrite uint64_small by (unfold maxInt; lia).
    repeat split; try assumption; try (unfold maxInt; lia).
    destruct first; [exact Hop|reflexivity]. }
  rewrite <- Hw1 in Hw.
  rewrite (bind_Ok _ _ _ _ _ (Client_sendFrame_wire f c1 Hvalid eq_refl Hw)).
  cbv beta iota.
  destruct isFinal eqn:Efin.
  - (* the last frame *)
    exists [f], (set_written c1 (written c1 ++ wire f)).
    assert (remaining = []) as Hr by reflexivity.
    destruct n as [|n']; [|].
    + exfalso. destruct data; cbn in Hpos, Hlen; lia.
    + rewrite Hr. cbn [Client.sendFragments length Z.of_nat].
      change (0 <? 0) with false. cbv iota.
      cbn [map concat written set_written inbound fragmented].
      rewrite app_nil_r, Hwr1.
      split; [reflexivity|]. split; [reflexivity|]. split; [exact Hi1|].
      split; [exact Hvalid|]. split; [reflexivity|]. split; [reflexivity|].
      split; [exact Hc1|]. split; [reflexivity|].
      exists []. rewrite app_nil_r. split; reflexivity.
  - (* a full chunk, more to follow *)
    destruct (Hc3 eq_refl) as [Hfull Hrem].
    destruct (IH remaining false opcode
                 (set_written c1 (written c1 ++ wire f)) Hw Hop Hrem)
      as (frames & c' & Hrun & Hwr & Hinb & Hfr).
    exists (f :: frames), c'. split; [exact Hrun|]. split; [|split].
    + rewrite Hwr. cbn [written set_written map concat].
      rewrite Hwr1, <- app_assoc. reflexivity.
    + rewrite Hinb. exact Hi1.
    + cbn [fragmented].
      split; [exact Hvalid|]. split; [reflexivity|]. split; [reflexivity|].
      split; [exact Hc1|]. split.
      * destruct frames as [|g gs]; [|split; [reflexivity|exact Hfull]].
        cbn [fragmented] in Hfr. exfalso.
        unfold remaining, MaxFrameSize in Hfr.
        apply (f_equal (@length byte)) in Hfr.
        rewrite length_skipn in Hfr. cbn [length] in Hfr.
        unfold isFinal, MaxFrameSize in Efin.
        destruct (Z.leb_spec (Z.of_nat (length data)) 65535); [discriminate|].
        lia.
      * exists remaining. split; [exact Hc2|exact Hfr].
Qed.

(** X14.  What [sendFragmentedMessage] puts on the wire, for any payload and any
    state of the random source: masked frames of at most 65535 bytes that cut
    the payload in order, the opcode on the first and 0 on the others, FIN on
    the last only. *)
Theorem fragmentation_policy (data : list byte) (opcode : byte) (c : Conn) :
  wbroken c = false -> byte.unsigned opcode < 16 ->
  exists frames c',
    Client.sendFragmentedMessage data opcode c = Ok None c' /\
    written c' = written c ++ concat (map wire frames) /\
    fragmented true opcode data frames.
Proof.
  intros Hw Hop.
  destruct (sendFragments_frames (S (length data)) data true opcode c Hw Hop)
    as (frames & c' & H1 & H2 & _ & H3); [lia|].
  exists frames, c'. auto.
Qed.

(** C5 fails on the empty payload.  The loop of [sendFragmentedMessage] runs
    while bytes remain, so for a payload of no bytes it returns nil with the
    connection untouched: no frame at all is written, where one final frame
    with an empty payload is expected. *)
Theorem empty_payload_sends_nothing (opcode : byte) (c : Conn) :
  Client.sendFragmentedMessage [] opcode c = Ok None c.
Proof. reflexivity. Qed.

(** ** The receiver's reassembly *)

(** One turn of the client's loop on a frame that is not a control frame. *)
Lemma readFrames_data n buf op c frame c' :
  ReadFrame c = Ok (Val frame) c' ->
  String.eqb (OpcodeName frame) "close" = false ->
  String.eqb (OpcodeName frame) "ping" = false ->
  String.eqb (OpcodeName frame) "pong" = false ->
  Client.readFrames (S n) buf op c
  = let append (messageOpcode : byte) : M (result Message.t) :=
        if Fin frame
        then ret (Val (Message.mk messageOpcode (buf ++ Payload frame)))
        else Client.readFrames n (buf ++ Payload frame) messageOpcode in
    if (length buf =? 0)%nat then append (Opcode frame) c'
    else if negb (byte.unsigned (Opcode frame) =? 0)
         then Ok (Err (Errorf "protocol error: expected continuation frame")) c'
         else append op c'.
Proof.
  intros Hr H1 H2 H3. cbn [Client.readFrames].
  rewrite (bind_Ok _ _ _ _ _ Hr). cbv beta iota zeta.
  rewrite H1, H2, H3.
  destruct (length buf =? 0)%nat; [reflexivity|].
  destruct (negb (byte.unsigned (Opcode frame) =? 0)); reflexivity.
Qed.

Lemma continuation_is_data f : Opcode f = x00 -> data_frame f.
Proof. intros H. unfold data_frame, OpcodeName. rewrite H. repeat split. Qed.

Lemma readFrames_continuations (conts : list Frame) :
  forall fuel buf op c rest,
    buf <> [] -> continuation_run conts ->
    inbound c = concat (map wire conts) ++ rest ->
    (length (inbound c) < fuel)%nat ->
    Client.readFrames fuel buf op c
    = Ok (Val (Message.mk op (buf ++ concat (map Payload conts))))
         (set_inbound c rest).
Proof.
  induction conts as [|f fs IH]; intros fuel buf op c rest Hbuf Hrun Hin Hfuel;
    [destruct Hrun|].
  destruct Hrun as (Hv & Hop & Hfin).
  destruct fuel as [|n]; [lia|].
  cbn [map concat] in Hin |- *. rewrite <- app_assoc in Hin.
  pose proof (ReadFrame_wire_frame f c _ Hv Hin) as Hr.
  destruct (continuation_is_data f Hop) as (H1 & H2 & H3).
  rewrite (readFrames_data n buf op c f _ Hr H1 H2 H3). cbv zeta.
  destruct buf as [|b buf']; [congruence|]. cbn [length Nat.eqb].
  rewrite Hop. change (negb (byte.unsigned x00 =? 0)) with false. cbv iota.
  destruct fs as [|g gs].
  - rewrite Hfin. cbn [map concat app]. rewrite !app_nil_r. reflexivity.
  - destruct Hfin as [-> Hrun'].
    rewrite (IH n ((b :: buf') ++ Payload f) op
                (set_inbound c (concat (map wire (g :: gs)) ++ rest)) rest).
    + rewrite <- app_assoc. reflexivity.
    + discriminate.
    + exact Hrun'.
    + reflexivity.
    + cbn [inbound set_inbound]. rewrite Hin in Hfuel.
      rewrite length_app in Hfuel. pose proof (wire_length f). lia.
Qed.

(** X13.  A message in one frame, or in a first frame with a non-empty payload
    followed by continuation frames: the payloads are concatenated in order and
    the kind is the first frame's opcode. *)
Theorem reassembly (first : Frame) (conts : list Frame) (c : Conn)
        (rest : list byte) :
  valid_frame first -> data_frame first ->
  (Fin first = true /\ conts = []) \/
  (Fin first = false /\ Payload first <> [] /\ continuation_run conts) ->
  inbound c = wire first ++ concat (map wire conts) ++ rest ->
  Client.ReadFullMessage c
  = Ok (Val (Message.mk (Opcode first)
                        (Payload first ++ concat (map Payload conts))))
       (set_inbound c rest).
Proof.
  intros Hv (H1 & H2 & H3) Hshape Hin. unfold Client.ReadFullMessage.
  pose proof (ReadFrame_wire_frame first c _ Hv Hin) as Hr.
  rewrite (readFrames_data _ [] x00 c first _ Hr H1 H2 H3). cbv zeta.
  cbn [length Nat.eqb app].
  destruct Hshape as [[Hfin ->] | (Hfin & Hne & Hrun)]; rewrite Hfin.
  - cbn [map concat app]. rewrite app_nil_r. reflexivity.
  - rewrite (readFrames_continuations conts (length (inbound c))
               (Payload first) (Opcode first)
               (set_inbound c (concat (map wire conts) ++ rest)) rest);
      try assumption; try reflexivity.
    cbn [inbound set_inbound]. rewrite Hin, !length_app.
    pose proof (wire_length first). lia.
Qed.

(** The three fragments of [Hello]. *)
Lemma reassembly_witness :
  Client.ReadFullMessage
    (set_inbound conn0 ([x01; x02] ++ bytes_of "He" ++
                        [x00; x02] ++ bytes_of "ll" ++
                        [x80; x01] ++ bytes_of "o"))
  = Ok (Val (Message.mk x01 (bytes_of "Hello"))) conn0.
Proof.
  refine (reassembly (mkFrame false x01 false 2 [] (bytes_of "He"))
            [mkFrame false x00 false 2 [] (bytes_of "ll");
             mkFrame true x00 false 1 [] (bytes_of "o")]
            (set_inbound conn0 _) [] _ _ _ _).
  - unfold valid_frame, maxInt. cbn. repeat split; lia.
  - repeat split.
  - right. split; [reflexivity|]. split; [discriminate|].
    unfold continuation_run, valid_frame, maxInt. cbn. repeat split; lia.
  - reflexivity.
Defined.

(** C3 fails when the first fragment is empty.  The loop takes an empty
    buffer for the sign of a first fragment: after a first data frame with
    no payload the buffer is still empty, so the opcode of the continuation
    frame that follows replaces the remembered one and the message comes out
    with kind 0, whatever the opcode of the first frame was. *)
Theorem empty_first_fragment_loses_kind (first last : Frame) (c : Conn)
        (rest : list byte) :
  valid_frame first -> data_frame first ->
  Fin first = false -> Payload first = [] ->
  valid_frame last -> Opcode last = x00 -> Fin last = true ->
  inbound c = wire first ++ wire last ++ rest ->
  Client.ReadFullMessage c
  = Ok (Val (Message.mk x00 (Payload last))) (set_inbound c rest).
Proof.
  intros Hv (H1 & H2 & H3) Hfin Hempty Hv' Hop' Hfin' Hin.
  unfold Client.ReadFullMessage.
  pose proof (ReadFrame_wire_frame first c _ Hv Hin) as Hr.
  rewrite (readFrames_data _ [] x00 c first _ Hr H1 H2 H3). cbv zeta.
  cbn [length Nat.eqb app]. rewrite Hfin, Hempty.
  destruct (length (inbound c)) as [|n] eqn:Hn.
  { rewrite Hin, length_app in Hn. pose proof (wire_length first). lia. }
  assert (Hr' : ReadFrame (set_inbound c (wire last ++ rest))
                = Ok (Val last) (set_inbound c rest))
    by exact (ReadFrame_wire_frame last (set_inbound c (wire last ++ rest))
                                   rest Hv' eq_refl).
  destruct (continuation_is_data last Hop') as (H1' & H2' & H3').
  rewrite (readFrames_data n [] (Opcode first) _ last _ Hr' H1' H2' H3').
  cbv zeta. cbn [length Nat.eqb app]. rewrite Hfin', Hop'. reflexivity.
Qed.

(** A text frame with no payload, then [Hello] in a final continuation
    frame. *)
Lemma empty_first_fragment_loses_kind_witness :
  Client.ReadFullMessage
    (set_inbound conn0 ([x01; x00] ++ [x80; x05] ++ bytes_of "Hello"))
  = Ok (Val (Message.mk x00 (bytes_of "Hello"))) conn0.
Proof.
  refine (empty_first_fragment_loses_kind
            (mkFrame false x01 false 0 [] [])
            (mkFrame true x00 false 5 [] (bytes_of "Hello"))
            (set_inbound conn0 _) [] _ _ _ _ _ _ _ _);
    try reflexivity.
  - unfold valid_frame, maxInt. cbn. repeat split; lia.
  - repeat split.
  - unfold valid_frame, maxInt. cbn. repeat split; lia.
Defined.

(** C4 fails.  With no fragment sequence open, a final continuation frame is
    taken for the first fragment of a message: [ReadFullMessage] returns a
    message of kind 0 with the frame's payload and no error. *)
Theorem idle_continuation_accepted (f : Frame) (c : Conn)
        (rest : list byte) :
  valid_frame f -> Opcode f = x00 -> Fin f = true ->
  inbound c = wire f ++ rest ->
  Client.ReadFullMessage c
  = Ok (Val (Message.mk x00 (Payload f))) (set_inbound c rest).
Proof.
  intros Hv Hop Hfin Hin.
  pose proof (ReadFrame_wire_frame f c _ Hv Hin) as Hr.
  destruct (continuation_is_data f Hop) as (H1 & H2 & H3).
  unfold Client.ReadFullMessage.
  rewrite (readFrames_data _ [] x00 c f _ Hr H1 H2 H3). cbv zeta.
  cbn [length Nat.eqb app]. rewrite Hfin, Hop. reflexivity.
Qed.

(** One final continuation frame with payload [o]. *)
Lemma idle_continuation_accepted_witness :
  Client.ReadFullMessage (set_inbound conn0 ([x80; x01] ++ bytes_of "o"))
  = Ok (Val (Message.mk x00 (bytes_of "o"))) conn0.
Proof.
  refine (idle_continuation_accepted
            (mkFrame true x00 false 1 [] (bytes_of "o"))
            (set_inbound conn0 _) [] _ _ _ _);
    try reflexivity.
  unfold valid_frame, maxInt. cbn. repeat split; lia.
Defined.

(** ** Pings *)

(** One turn on a ping: the pong goes out, then the loop goes on with the
    same buffer and opcode. *)
Lemma readFrames_ping n buf op c frame c' :
  ReadFrame c = Ok (Val frame) c' ->
  OpcodeName frame = "ping" ->
  Client.readFrames (S n) buf op c
  = (_ <- Client.sendPong (Payload frame) ;; Client.readFrames n buf op) c'.
Proof.
  intros Hr Hn. cbn [Client.readFrames].
  rewrite (bind_Ok _ _ _ _ _ Hr). cbv beta iota zeta.
  rewrite Hn. reflexivity.
Qed.

(** A ping at any point of the client's loop: the pong is sent before the
    next frame is read, and the loop goes on with the buffer and opcode it
    had. *)
Lemma client_ping_step (n : nat) (buf : list byte) (op : byte)
      (ping : Frame) (c : Conn) (rest : list byte) :
  valid_frame ping -> Opcode ping = x09 ->
  inbound c = wire ping ++ rest ->
  Client.readFrames (S n) buf op c
  = (_ <- Client.sendPong (Payload ping) ;; Client.readFrames n buf op)
      (set_inbound c rest).
Proof.
  intros Hv Hop Hin.
  pose proof (ReadFrame_wire_frame ping c _ Hv Hin) as Hr.
  apply (readFrames_ping n buf op c ping _ Hr).
  unfold OpcodeName. rewrite Hop. reflexivity.
Qed.

(** The pong: one frame, FIN set, opcode 0xA, the payload of the ping. *)
Lemma sendPong_frame (payload : list byte) (c : Conn) :
  Z.of_nat (length payload) <= maxInt -> wbroken c = false ->
  exists key c1,
    generateMaskKey c = Ok key c1 /\
    let pong := mkFrame true x0a true (Z.of_nat (length payload)) key payload in
    valid_frame pong /\
    Client.sendPong payload c
    = Ok None (set_written c1 (written c ++ wire pong)).
Proof.
  intros Hmax Hw.
  destruct (generateMaskKey_ok c) as (key & c1 & Ek & Hk & Hi1 & Hw1 & Hwr1).
  exists key, c1. split; [exact Ek|]. cbv zeta.
  assert (Hv : valid_frame (mkFrame true x0a true (Z.of_nat (length payload))
                                    key payload)).
  { unfold valid_frame. cbn [Opcode PayloadLen Payload MaskKey Masked].
    repeat split; assumption. }
  split; [exact Hv|].
  unfold Client.sendPong. rewrite (bind_Ok _ _ _ _ _ Ek).
  rewrite uint64_small by lia.
  rewrite (Client_sendFrame_wire _ c1 Hv eq_refl) by congruence.
  rewrite Hwr1. reflexivity.
Qed.

(** The client on the same ping: one pong with the payload, masked with the
    next four random bytes. *)
Lemma client_session_ping_pong :
  Client.ReadFullMessage
    (mkConn ([x01; x02] ++ bytes_of "He" ++ [x89; x02] ++ bytes_of "hi" ++
             [x80; x03] ++ bytes_of "llo")
            [] false false [x01; x02; x03; x04])
  = Ok (Val (Message.mk x01 (bytes_of "Hello")))
       (mkConn [] [x8a; x82; x01; x02; x03; x04;
                   byte.xor "h" x01; byte.xor "i" x02]
               false false []).
Proof. vm_compute. reflexivity. Qed.

Section ServerPing.

Variable json_Unmarshal_ok : list byte -> bool.

(** C6 fails on the server.  The loop of [handleWebSocket] reads a ping and
    goes on to the next frame with nothing written: no pong is sent. *)
Theorem server_ignores_ping (n : nat) (ping : Frame) (c : Conn)
        (rest : list byte) :
  valid_frame ping -> Opcode ping = x09 ->
  inbound c = wire ping ++ rest ->
  serveFrames json_Unmarshal_ok (S n) c
  = serveFrames json_Unmarshal_ok n (set_inbound c rest).
Proof.
  intros Hv Hop Hin.
  pose proof (ReadFrame_wire_frame ping c _ Hv Hin) as Hr.
  cbn [serveFrames]. rewrite (bind_Ok _ _ _ _ _ Hr).
  unfold OpcodeName. rewrite Hop. reflexivity.
Qed.

End ServerPing.

Lemma server_ignores_ping_witness :
  serveFrames (fun _ => true) 9 (set_inbound conn0 ping_hi)
  = serveFrames (fun _ => true) 8 conn0.
Proof.
  refine (server_ignores_ping (fun _ => true) 8
            (mkFrame true x09 true 2 [x01; x02; x03; x04] (bytes_of "hi"))
            (set_inbound conn0 ping_hi) [] _ _ _);
    try reflexivity.
  unfold valid_frame, maxInt. cbn. repeat split; lia.
Defined.

(** The whole server session on a valid upgrade followed by that ping: the
    handshake response is all it ever writes. *)
Lemma server_session_ping_no_pong :
  handleWebSocket (fun _ => true) (Val browser_upgrade)
                  (set_inbound conn0 ping_hi)
  = Ok tt (set_closed
             (set_written conn0
                (bytes_of (handshakeResponse "s3pPLMBiTxaQ9kYGzzhZRbK+xOo=")))).
Proof. vm_compute. reflexivity. Qed.

(** ** What [ReadFrame] returns on any input *)

Lemma ReadFull_Val_length n c bs c' :
  ReadFull n c = Ok (Val bs) c' -> 0 < n -> Z.of_nat (length bs) = n.
Proof.
  unfold ReadFull. intros H Hn.
  destruct (Z.leb_spec n 0); [lia|].
  destruct (inbound c) as [|b l] eqn:E; [discriminate H|].
  destruct (Z.ltb_spec (Z.of_nat (length (b :: l))) n); [discriminate H|].
  injection H as <- _. rewrite length_firstn. lia.
Qed.

Lemma combine_nonneg bs : forall acc, 0 <= acc -> 0 <= BigEndian.combine acc bs.
Proof.
  induction bs as [|b bs IH]; intros acc H; cbn [BigEndian.combine]; [exact H|].
  apply IH. apply Z.lor_nonneg. split.
  - apply Z.shiftl_nonneg. exact H.
  - apply byte.unsigned_range.
Qed.

Lemma low_nibble_bound (b : byte) : byte.unsigned (b .& x0f) < 16.
Proof. destruct b; reflexivity. Qed.

(** X1.  Whatever bytes arrive, a frame that [ReadFrame] returns is well formed:
    its opcode has four bits, its payload has [PayloadLen] bytes, the length
    fits a slice, and the key has four bytes when the frame is masked and none
    otherwise. *)
Theorem ReadFrame_returns_valid (c c' : Conn) (f : Frame) :
  ReadFrame c = Ok (Val f) c' -> valid_frame f.
Proof.
  unfold ReadFrame, bind. 
  destruct (ReadFull 1 c) as [[b0|e0] c1| |]; try discriminate.
  destruct (ReadFull 1 c1) as [[b1|e1] c2| |]; try discriminate.
  set (masked := negb (byte.unsigned (hd x00 b1 .& x80) =? 0)).
  set (ind := byte.unsigned (hd x00 b1 .& x7f)).
  assert (Hind : 0 <= ind) by apply byte.unsigned_range.
  intros H.
  assert (Hlen : exists len c3,
             0 <= len /\
             (try key <- (if masked then ReadFull 4 else ret (Val [])) ;;
              if 0 <? len then
                if maxInt <? len then panic "makeslice: len out of range"
                else
                  try payload <- ReadFull len ;;
                  if masked then
                    match xor_mask key 0 payload with
                    | Some unmasked =>
                      ret (Val (mkFrame (negb (byte.unsigned (hd x00 b0 .& x80) =? 0))
                                        (hd x00 b0 .& x0f) masked len key unmasked))
                    | None => panic "index out of range"
                    end
                  else ret (Val (mkFrame (negb (byte.unsigned (hd x00 b0 .& x80) =? 0))
                                         (hd x00 b0 .& x0f) masked len key payload))
              else ret (Val (mkFrame (negb (byte.unsigned (hd x00 b0 .& x80) =? 0))
                                     (hd x00 b0 .& x0f) masked len key []))) c3
             = Ok (Val f) c').
  { destruct (ind =? 126).
    - destruct (ReadFull 2 c2) as [[ext|e] c3| |]; try discriminate.
      exists (BigEndian.Uint16 ext), c3. split; [|exact H].
      apply combine_nonneg. lia.
    - destruct (ind =? 127).
      + destruct (ReadFull 8 c2) as [[ext|e] c3| |]; try discriminate.
        exists (BigEndian.Uint64 ext), c3. split; [|exact H].
        apply combine_nonneg. lia.
      + exists ind, c2. split; [exact Hind|exact H]. }
  clear H. destruct Hlen as (len & c3 & Hlen & H). unfold bind in H.
  assert (Hkey : exists key c4,
             length key = (if masked then 4 else 0)%nat /\
             (if masked then ReadFull 4 else ret (Val [])) c3 = Ok (Val key) c4).
  { destruct masked.
    - destruct (ReadFull 4 c3) as [[key|e] c4| |] eqn:E; try discriminate.
      exists key, c4. split; [|reflexivity].
      pose proof (ReadFull_Val_length _ _ _ _ E). lia.
    - exists [], c3. split; reflexivity. }
  destruct Hkey as (key & c4 & Hk & Ek). rewrite Ek in H.
  unfold valid_frame.
  destruct (Z.ltb_spec 0 len).
  - destruct (Z.ltb_spec maxInt len); [discriminate|].
    destruct (ReadFull len c4) as [[payload|e] c5| |] eqn:Ep; try discriminate.
    pose proof (ReadFull_Val_length _ _ _ _ Ep) as Hp.
    destruct masked.
    + destruct (xor_mask key 0 payload) as [q|] eqn:Ex; [|discriminate].
      injection H as <- _. cbn [Opcode PayloadLen Payload MaskKey Masked].
      rewrite (xor_mask_length _ _ _ _ Ex).
      repeat split; try lia. apply low_nibble_bound.
    + injection H as <- _. cbn [Opcode PayloadLen Payload MaskKey Masked].
      repeat split; try lia. apply low_nibble_bound.
  - injection H as <- _. cbn [Opcode PayloadLen Payload MaskKey Masked length].
    unfold maxInt. repeat split; try lia. apply low_nibble_bound.
Qed.

Lemma ReadFrame_returns_valid_witness :
  valid_frame (mkFrame true x09 true 2 [x01; x02; x03; x04] (bytes_of "hi")).
Proof.
  apply (ReadFrame_returns_valid (set_inbound conn0 ping_hi) conn0).
  vm_compute. reflexivity.
Defined.

(** ** The reserved bits *)

Lemma and_x8f_x80 (b : byte) : (b .& x8f) .& x80 = b .& x80.
Proof. destruct b; reflexivity. Qed.

Lemma and_x8f_x0f (b : byte) : (b .& x8f) .& x0f = b .& x0f.
Proof. destruct b; reflexivity. Qed.

(** X2.  The three reserved bits of byte 0 are never looked at: two streams that
    differ in them only are read alike, so a frame with a reserved bit set is
    not refused. *)
Theorem ReadFrame_ignores_reserved_bits (c : Conn) (b b' : byte)
        (rest : list byte) :
  b .& x8f = b' .& x8f ->
  ReadFrame (set_inbound c (b :: rest)) = ReadFrame (set_inbound c (b' :: rest)).
Proof.
  intros H.
  assert (H80 : b .& x80 = b' .& x80)
    by (rewrite <- (and_x8f_x80 b), <- (and_x8f_x80 b'), H; reflexivity).
  assert (H0f : b .& x0f = b' .& x0f)
    by (rewrite <- (and_x8f_x0f b), <- (and_x8f_x0f b'), H; reflexivity).
  unfold ReadFrame.
  erewrite !bind_Ok;
    [|apply ReadFull_app with (bs := [b']) (rest := rest);
      [reflexivity|reflexivity|lia]
     |apply ReadFull_app with (bs := [b]) (rest := rest);
      [reflexivity|reflexivity|lia]].
  cbn [hd]. rewrite H80, H0f. reflexivity.
Qed.

Lemma ReadFrame_ignores_reserved_bits_witness :
  ReadFrame (set_inbound conn0 (xf1 :: [x01] ++ bytes_of "o"))
  = ReadFrame (set_inbound conn0 (x81 :: [x01] ++ bytes_of "o")).
Proof.
  apply (ReadFrame_ignores_reserved_bits conn0 xf1 x81). reflexivity.
Defined.

(** ** A length that no slice can have *)

(** A 64-bit length above the largest slice length: [make] panics before a
    byte of payload is read. *)
Lemma ReadFrame_oversized_length_panics (c : Conn) (b0 b1 : byte)
        (ext key rest : list byte) :
  byte.unsigned (b1 .& x7f) = 127 ->
  length ext = 8%nat ->
  maxInt < BigEndian.Uint64 ext ->
  length key = (if bit7 b1 then 4 else 0)%nat ->
  inbound c = b0 :: b1 :: ext ++ key ++ rest ->
  ReadFrame c = Panic "makeslice: len out of range".
Proof.
  intros Hind Hext Hbig Hkey Hin. unfold ReadFrame.
  erewrite bind_Ok;
    [|apply ReadFull_app with (bs := [b0]); [exact Hin|reflexivity|lia]].
  cbn [hd].
  erewrite bind_Ok;
    [|apply ReadFull_app with (bs := [b1]) (rest := ext ++ key ++ rest);
      [reflexivity|reflexivity|lia]].
  cbn [hd]. rewrite Hind. fold (bit7 b1).
  change (127 =? 126) with false. change (127 =? 127) with true. cbv iota.
  rewrite set_inbound_twice.
  erewrite bind_Ok; cycle 1.
  { erewrite bind_Ok;
      [|apply ReadFull_app with (bs := ext) (rest := key ++ rest);
        [reflexivity|lia|lia]].
    reflexivity. }
  rewrite set_inbound_twice.
  assert (Hk : (if bit7 b1 then ReadFull 4 else ret (Val []))
                 (set_inbound c (key ++ rest))
               = Ok (Val key) (set_inbound c rest)).
  { destruct (bit7 b1).
    - rewrite (ReadFull_app _ 4 key rest) by (try reflexivity; lia).
      reflexivity.
    - destruct key; [reflexivity|discriminate Hkey]. }
  rewrite (bind_Ok _ _ _ _ _ Hk).
  assert (0 <= maxInt) by (unfold maxInt; lia).
  destruct (Z.ltb_spec 0 (BigEndian.Uint64 ext)); [|lia].
  destruct (Z.ltb_spec maxInt (BigEndian.Uint64 ext)); [|lia].
  reflexivity.
Qed.

Section Crash.

Variable json_Unmarshal_ok : list byte -> bool.

(** X3.  After a valid upgrade, a frame header that announces more than 2^63-1
    bytes of payload takes the handler down: [ReadFrame] panics in [make],
    nothing recovers it, and the peer needs to send no payload. *)
Theorem handleWebSocket_oversized_length_panics (request : http.Request)
        (c : Conn) (b0 b1 : byte) (ext key rest : list byte) :
  code_handshake_ok (http.Header_ request) = true ->
  wbroken c = false ->
  byte.unsigned (b1 .& x7f) = 127 ->
  length ext = 8%nat ->
  maxInt < BigEndian.Uint64 ext ->
  length key = (if bit7 b1 then 4 else 0)%nat ->
  inbound c = b0 :: b1 :: ext ++ key ++ rest ->
  handleWebSocket json_Unmarshal_ok (Val request) c
  = Panic "makeslice: len out of range".
Proof.
  intros Hok Hw Hind Hext Hbig Hkey Hin.
  unfold handleWebSocket, code_handshake_ok in *.
  apply andb_prop in Hok. destruct Hok as [-> ->]. cbn [negb orb].
  unfold bind at 1 2. unfold Write. rewrite Hw.
  cbn [serveFrames]. unfold bind at 1.
  rewrite (ReadFrame_oversized_length_panics _ b0 b1 ext key rest);
    try assumption; reflexivity.
Qed.

End Crash.

Lemma handleWebSocket_oversized_length_panics_witness :
  handleWebSocket (fun _ => true) (Val browser_upgrade)
                  (set_inbound conn0 huge_header)
  = Panic "makeslice: len out of range".
Proof.
  apply (handleWebSocket_oversized_length_panics (fun _ => true)
           browser_upgrade (set_inbound conn0 huge_header)
           x82 x7f (repeat xff 8) [] []); try reflexivity.
Defined.

(** ** A stream that ends inside a frame *)



Lemma set_inbound_nil_twice c bs : set_inbound (set_inbound c bs) [] = set_inbound c [].
Proof. reflexivity. Qed.




Section ServerCut.

Variable json_Unmarshal_ok : list byte -> bool.


End ServerCut.






(** ** Close frames and frames out of sequence *)

(** X6.  A close frame ends [ReadFullMessage] with an error at any point of its
    loop: fragments buffered so far are not delivered and what follows the frame
    is left unread. *)
Theorem close_frame_ends_reading (n : nat) (buf : list byte) (op : byte)
        (f : Frame) (c : Conn) (rest : list byte) :
  valid_frame f -> Opcode f = x08 ->
  inbound c = wire f ++ rest ->
  Client.readFrames (S n) buf op c
  = Ok (Err (Errorf "received close frame")) (set_inbound c rest).
Proof.
  intros Hv Hop Hin.
  pose proof (ReadFrame_wire_frame f c _ Hv Hin) as Hr.
  cbn [Client.readFrames]. rewrite (bind_Ok _ _ _ _ _ Hr).
  unfold OpcodeName. rewrite Hop. reflexivity.
Qed.

Lemma close_frame_ends_reading_witness :
  Client.readFrames 1 (bytes_of "He") x01
                    (set_inbound conn0 ([x88; x00] ++ bytes_of "more"))
  = Ok (Err (Errorf "received close frame"))
       (set_inbound conn0 (bytes_of "more")).
Proof.
  refine (close_frame_ends_reading 0 _ _ (mkFrame true x08 false 0 [] [])
            (set_inbound conn0 _) (bytes_of "more") _ _ _);
    try reflexivity.
  unfold valid_frame, maxInt. cbn. repeat split; lia.
Defined.

(** X7.  While a message is open, a data frame that is not a continuation frame
    is refused: the frame is consumed and the loop ends with the protocol error. *)
Theorem data_frame_inside_message_refused (n : nat) (buf : list byte)
        (op : byte) (f : Frame) (c : Conn) (rest : list byte) :
  valid_frame f -> data_frame f -> Opcode f <> x00 -> buf <> [] ->
  inbound c = wire f ++ rest ->
  Client.readFrames (S n) buf op c
  = Ok (Err (Errorf "protocol error: expected continuation frame"))
       (set_inbound c rest).
Proof.
  intros Hv (H1 & H2 & H3) Hop Hbuf Hin.
  pose proof (ReadFrame_wire_frame f c _ Hv Hin) as Hr.
  rewrite (readFrames_data n buf op c f _ Hr H1 H2 H3). cbv zeta.
  destruct buf as [|b buf']; [congruence|]. cbn [length Nat.eqb].
  destruct (Z.eqb_spec (byte.unsigned (Opcode f)) 0) as [E|E]; [|reflexivity].
  exfalso. apply Hop. apply byte.unsigned_inj. exact E.
Qed.

Lemma data_frame_inside_message_refused_witness :
  Client.ReadFullMessage
    (set_inbound conn0 ([x01; x02] ++ bytes_of "He" ++
                        [x81; x02] ++ bytes_of "ll"))
  = Ok (Err (Errorf "protocol error: expected continuation frame")) conn0.
Proof.
  refine (data_frame_inside_message_refused 2 (bytes_of "He") x01
            (mkFrame true x01 false 2 [] (bytes_of "ll"))
            (set_inbound conn0 ([x81; x02] ++ bytes_of "ll")) [] _ _ _ _ _);
    try reflexivity; try discriminate.
  - unfold valid_frame, maxInt. cbn. repeat split; lia.
  - repeat split.
Defined.

Section ServerFrames.

Variable json_Unmarshal_ok : list byte -> bool.

(** X8.  A close frame ends the server's session: the handler returns with the
    connection closed, nothing more written and the rest unread. *)
Theorem server_session_ends_on_close (request : http.Request) (f : Frame)
        (c : Conn) (rest : list byte) :
  code_handshake_ok (http.Header_ request) = true ->
  wbroken c = false ->
  valid_frame f -> Opcode f = x08 ->
  inbound c = wire f ++ rest ->
  handleWebSocket json_Unmarshal_ok (Val request) c
  = Ok tt (set_closed
             (set_inbound
                (set_written c
                   (written c ++
                    bytes_of (handshakeResponse
                                (generateWebSocketAcceptKey
                                   (http.Get (http.Header_ request)
                                             "Sec-WebSocket-Key")))))
                rest)).
Proof.
  intros Hok Hw Hv Hop Hin.
  unfold handleWebSocket, code_handshake_ok in *.
  apply andb_prop in Hok. destruct Hok as [-> ->]. cbn [negb orb].
  unfold bind at 1 2. unfold Write. rewrite Hw.
  cbn [serveFrames].
  match goal with
  | |- context [bind ReadFrame _ ?c1] =>
    assert (Hr : ReadFrame c1 = Ok (Val f) (set_inbound c1 rest))
      by (apply ReadFrame_wire_frame; [exact Hv|exact Hin])
  end.
  rewrite (bind_Ok _ _ _ _ _ Hr).
  unfold OpcodeName. rewrite Hop. reflexivity.
Qed.

(** X9.  A text frame whose payload parses is answered with the one reply frame,
    whatever its FIN bit; one whose payload does not parse is skipped. *)
Theorem server_answers_text_frame (n : nat) (f : Frame) (c : Conn)
        (rest : list byte) :
  valid_frame f -> Opcode f = x01 -> wbroken c = false ->
  inbound c = wire f ++ rest ->
  serveFrames json_Unmarshal_ok (S n) c
  = serveFrames json_Unmarshal_ok n
      (if json_Unmarshal_ok (Payload f)
       then set_written (set_inbound c rest) (written c ++ server_reply)
       else set_inbound c rest).
Proof.
  intros Hv Hop Hw Hin.
  pose proof (ReadFrame_wire_frame f c _ Hv Hin) as Hr.
  cbn [serveFrames]. rewrite (bind_Ok _ _ _ _ _ Hr).
  unfold OpcodeName. rewrite Hop.
  change (byte.unsigned x01) with 1. cbv beta iota zeta.
  change (String.eqb "text" "close") with false.
  change (String.eqb "text" "ping") with false.
  change (String.eqb "text" "pong") with false.
  change (String.eqb "text" "text") with true. cbv iota.
  destruct (json_Unmarshal_ok (Payload f)); [|reflexivity].
  rewrite (bind_Ok _ _ _ _ _
             (sendFrame_written responseJSON (set_inbound c rest)
                ltac:(vm_compute; discriminate) Hw)).
  reflexivity.
Qed.

End ServerFrames.

Lemma server_session_ends_on_close_witness :
  handleWebSocket (fun _ => true) (Val browser_upgrade)
                  (set_inbound conn0 ([x88; x00] ++ ping_hi))
  = Ok tt (set_closed
             (set_inbound
                (set_written conn0
                   (bytes_of (handshakeResponse "s3pPLMBiTxaQ9kYGzzhZRbK+xOo=")))
                ping_hi)).
Proof.
  refine (server_session_ends_on_close (fun _ => true) browser_upgrade
            (mkFrame true x08 false 0 [] [])
            (set_inbound conn0 ([x88; x00] ++ ping_hi)) ping_hi _ _ _ _ _);
    try reflexivity.
  unfold valid_frame, maxInt. cbn. repeat split; lia.
Defined.

Lemma server_answers_text_frame_witness :
  serveFrames (fun _ => true) 2
              (set_inbound conn0 ([x01; x02] ++ bytes_of "{}"))
  = serveFrames (fun _ => true) 1 (set_written conn0 server_reply).
Proof.
  refine (server_answers_text_frame (fun _ => true) 1
            (mkFrame false x01 false 2 [] (bytes_of "{}"))
            (set_inbound conn0 ([x01; x02] ++ bytes_of "{}")) [] _ _ _ _);
    try reflexivity.
  unfold valid_frame, maxInt. cbn. repeat split; lia.
Defined.

(** ** Sending and reading back *)

Lemma fragmented_continuations (opcode : byte) (fs : list Frame) :
  forall rest, fs <> [] -> fragmented false opcode rest fs ->
               continuation_run fs /\ concat (map Payload fs) = rest.
Proof.
  induction fs as [|f fs IH]; intros rest Hne H; [congruence|].
  cbn [fragmented] in H.
  destruct H as (Hv & _ & Hop & _ & Hfin & rest' & -> & Hrest).
  cbn [continuation_run map concat].
  destruct fs as [|g gs].
  - cbn [fragmented] in Hrest. subst rest'.
    split; [split; [exact Hv|split; [exact Hop|exact Hfin]]|reflexivity].
  - destruct Hfin as [Hfin _].
    destruct (IH rest' ltac:(discriminate) Hrest) as [Hrun Hcat].
    split; [split; [exact Hv|split; [exact Hop|split; [exact Hfin|exact Hrun]]]|].
    rewrite Hcat. reflexivity.
Qed.

(** X11.  A text or binary message of at least one byte, whatever its length and
    whatever random bytes there are: the frames that [sendFragmentedMessage]
    writes are read back by [ReadFullMessage] as that message, kind and payload,
    with what follows them left unread. *)
Theorem sent_message_is_read_back (data : list byte) (opcode : byte)
        (c : Conn) :
  message_opcode opcode -> data <> [] -> wbroken c = false ->
  exists out c',
    Client.sendFragmentedMessage data opcode c = Ok None c' /\
    written c' = written c ++ out /\
    forall d rest,
      inbound d = out ++ rest ->
      Client.ReadFullMessage d
      = Ok (Val (Message.mk opcode data)) (set_inbound d rest).
Proof.
  intros Hop Hne Hw.
  assert (Hop16 : byte.unsigned opcode < 16)
    by (destruct Hop as [-> | ->]; reflexivity).
  assert (Hdata : forall f, Opcode f = opcode -> data_frame f).
  { intros f E. unfold data_frame, OpcodeName. rewrite E.
    destruct Hop as [-> | ->]; repeat split. }
  destruct (sendFragments_frames (S (length data)) data true opcode c Hw Hop16)
    as (frames & c' & Hrun & Hwr & _ & Hfr); [lia|].
  exists (concat (map wire frames)), c'.
  split; [exact Hrun|]. split; [exact Hwr|].
  intros d rest Hin.
  destruct frames as [|f fs]; [cbn [fragmented] in Hfr; congruence|].
  cbn [fragmented] in Hfr.
  destruct Hfr as (Hv & _ & Hopf & Hlen & Hfin & rest' & -> & Hrest).
  cbn [map concat] in Hin. rewrite <- app_assoc in Hin.
  pose proof (ReadFrame_wire_frame f d _ Hv Hin) as Hr.
  destruct (Hdata f Hopf) as (H1 & H2 & H3).
  unfold Client.ReadFullMessage.
  rewrite (readFrames_data _ [] x00 d f _ Hr H1 H2 H3). cbv zeta.
  cbn [length Nat.eqb app]. rewrite Hopf.
  destruct fs as [|g gs].
  - cbn [fragmented] in Hrest. subst rest'. rewrite Hfin.
    rewrite app_nil_r. reflexivity.
  - destruct Hfin as [-> _].
    destruct (fragmented_continuations opcode (g :: gs) rest'
                ltac:(discriminate) Hrest) as [Hcr Hcat].
    rewrite (readFrames_continuations (g :: gs) (length (inbound d))
               (Payload f) opcode
               (set_inbound d (concat (map wire (g :: gs)) ++ rest)) rest);
      try assumption; try reflexivity.
    + rewrite Hcat. reflexivity.
    + destruct (Payload f); [cbn in Hlen; lia|discriminate].
    + cbn [inbound set_inbound]. rewrite Hin, !length_app.
      pose proof (wire_length f). lia.
Qed.



Lemma sent_message_is_read_back_witness :
  exists out c',
    Client.sendFragmentedMessage big_payload x01
                                 (conn_with_entropy (repeat x07 8))
    = Ok None c' /\
    written c' = written (conn_with_entropy (repeat x07 8)) ++ out /\
    forall d rest,
      inbound d = out ++ rest ->
      Client.ReadFullMessage d
      = Ok (Val (Message.mk x01 big_payload)) (set_inbound d rest).
Proof.
  apply (sent_message_is_read_back big_payload x01
           (conn_with_entropy (repeat x07 8))).
  - left. reflexivity.
  - intros H. apply (f_equal (fun l => Z.of_nat (length l))) in H.
    vm_compute in H. discriminate H.
  - reflexivity.
Defined.

(** X12.  What the server's [sendFrame] writes for a payload, the client's
    [ReadFullMessage] returns as a text message with that payload, and
    [ReadMessage] as the payload. *)
Theorem server_frame_read_as_text_message (payload : list byte) (c : Conn) :
  Z.of_nat (length payload) <= maxInt -> wbroken c = false ->
  exists out,
    sendFrame payload c = Ok tt (set_written c (written c ++ out)) /\
    forall d rest,
      inbound d = out ++ rest ->
      Client.ReadFullMessage d
      = Ok (Val (Message.mk x01 payload)) (set_inbound d rest) /\
      Client.ReadMessage d = Ok (Val payload) (set_inbound d rest).
Proof.
  intros Hmax Hw.
  exists (x81 :: lenField x00 (Z.of_nat (length payload)) ++ payload).
  split; [apply sendFrame_written; assumption|].
  intros d rest Hin.
  destruct (ReadFrame_wire d x81 x00 (Z.of_nat (length payload)) [] payload rest)
    as [plain [Hp Hr]]; auto; [lia| |].
  { rewrite Hin. cbn [app]. rewrite <- app_assoc. reflexivity. }
  rewrite bit7_x00 in Hp. subst plain.
  assert (Hfull : Client.ReadFullMessage d
                  = Ok (Val (Message.mk x01 payload)) (set_inbound d rest)).
  { unfold Client.ReadFullMessage.
    rewrite (readFrames_data _ [] x00 _ _ _ Hr) by reflexivity.
    reflexivity. }
  split; [exact Hfull|].
  unfold Client.ReadMessage. rewrite (bind_Ok _ _ _ _ _ Hfull). reflexivity.
Qed.

Lemma server_frame_read_as_text_message_witness :
  exists out,
    sendFrame responseJSON conn0 = Ok tt (set_written conn0 (written conn0 ++ out)) /\
    forall d rest,
      inbound d = out ++ rest ->
      Client.ReadFullMessage d
      = Ok (Val (Message.mk x01 responseJSON)) (set_inbound d rest) /\
      Client.ReadMessage d = Ok (Val responseJSON) (set_inbound d rest).
Proof.
  apply (server_frame_read_as_text_message responseJSON conn0).
  - vm_compute. discriminate.
  - reflexivity.
Defined.

(** ** The client's answer to a ping *)

(** X15.  A ping that arrives while the client reads, between messages or
    between the fragments of one, is answered at once with a masked pong that
    carries the ping's payload; the loop then goes on with the buffered
    fragments untouched. *)
Theorem client_answers_ping (n : nat) (buf : list byte) (op : byte)
        (ping : Frame) (c : Conn) (rest : list byte) :
  valid_frame ping -> Opcode ping = x09 -> wbroken c = false ->
  inbound c = wire ping ++ rest ->
  exists key c1,
    generateMaskKey (set_inbound c rest) = Ok key c1 /\
    let pong := mkFrame true x0a true (PayloadLen ping) key (Payload ping) in
    valid_frame pong /\
    Client.readFrames (S n) buf op c
    = Client.readFrames n buf op (set_written c1 (written c ++ wire pong)).
Proof.
  intros Hv Hop Hw Hin.
  destruct Hv as (Hv1 & Hv2 & Hv3 & Hv4).
  destruct (sendPong_frame (Payload ping) (set_inbound c rest))
    as (key & c1 & Ek & Hpong & Hsend); [lia|exact Hw|].
  exists key, c1. split; [exact Ek|]. cbv zeta in *.
  rewrite Hv2. split; [exact Hpong|].
  rewrite (client_ping_step n buf op ping c rest); 
    [|repeat split; assumption|exact Hop|exact Hin].
  rewrite (bind_Ok _ _ _ _ _ Hsend). reflexivity.
Qed.

Lemma client_answers_ping_witness :
  exists key c1,
    generateMaskKey (set_inbound (conn_with_entropy [x05; x06; x07; x08]) [])
    = Ok key c1 /\
    let pong := mkFrame true x0a true 2 key (bytes_of "hi") in
    valid_frame pong /\
    Client.readFrames 1 (bytes_of "He") x01
      (set_inbound (conn_with_entropy [x05; x06; x07; x08]) ping_hi)
    = Client.readFrames 0 (bytes_of "He") x01
        (set_written c1 (written (conn_with_entropy [x05; x06; x07; x08])
                         ++ wire pong)).
Proof.
  refine (client_answers_ping 0 (bytes_of "He") x01
            (mkFrame true x09 true 2 [x01; x02; x03; x04] (bytes_of "hi"))
            (set_inbound (conn_with_entropy [x05; x06; x07; x08]) ping_hi) []
            _ _ _ _); try reflexivity.
  unfold valid_frame, maxInt. cbn. repeat split; lia.
Defined.

(** ** Frames the client cannot send *)

Lemma xor_mask_short_key (key : list byte) (p : list byte) :
  forall i j,
    (j < length p)%nat -> nth_error key ((i + j) mod 4) = None ->
    xor_mask key i p = None.
Proof.
  induction p as [|b p IH]; intros i j Hj Hnone; [cbn in Hj; lia|].
  cbn [xor_mask].
  destruct (nth_error key (i mod 4)) as [k|] eqn:E; [|reflexivity].
  destruct j as [|j'].
  - rewrite Nat.add_0_r in Hnone. congruence.
  - rewrite (IH (S i) j'); [reflexivity|cbn in Hj; lia|].
    replace (S i + j')%nat with (i + S j')%nat by lia. exact Hnone.
Qed.

(** X17.  A frame whose mask key has fewer than four bytes and fewer bytes than
    the payload cannot be sent: [Client.sendFrame] panics on the key index
    before anything is written. *)
Theorem Client_sendFrame_short_key_panics (f : Frame) (c : Conn) :
  (length (MaskKey f) < 4)%nat ->
  (length (MaskKey f) < length (Payload f))%nat ->
  Client.sendFrame f c = Panic "index out of range".
Proof.
  intros H4 Hp. unfold Client.sendFrame. cbv zeta.
  rewrite (xor_mask_short_key (MaskKey f) (Payload f) 0 (length (MaskKey f)));
    [reflexivity|exact Hp|].
  cbn [Nat.add]. rewrite Nat.mod_small by exact H4.
  apply nth_error_None. lia.
Qed.

Lemma Client_sendFrame_short_key_panics_witness :
  Client.sendFrame (mkFrame true x01 false 5 [] (bytes_of "Hello")) conn0
  = Panic "index out of range".
Proof.
  apply (Client_sendFrame_short_key_panics
           (mkFrame true x01 false 5 [] (bytes_of "Hello")) conn0);
    cbn; lia.
Defined.

(** ** A connection that refuses writes *)

Lemma Client_sendFrame_broken (f : Frame) (c : Conn) :
  length (MaskKey f) = 4%nat -> wbroken c = true ->
  Client.sendFrame f c = Ok (Some ErrWrite) c.
Proof.
  intros Hk Hw. unfold Client.sendFrame. cbv zeta.
  destruct (xor_mask_some (MaskKey f) Hk (Payload f) 0) as [masked ->].
  cbv beta iota.
  rewrite (bind_Ok _ _ c (Some ErrWrite) c) by (apply Write_broken; exact Hw).
  reflexivity.
Qed.

(** X18.  On a connection that refuses writes a non-empty message is given up at
    its first frame: the error comes back, nothing is written and at most one
    mask key is drawn. *)
Theorem sendFragmentedMessage_write_failure (data : list byte) (opcode : byte)
        (c : Conn) :
  data <> [] -> wbroken c = true ->
  exists e c',
    Client.sendFragmentedMessage data opcode c = Ok (Some e) c' /\
    written c' = written c /\
    (length (entropy c) - length (entropy c') <= 4)%nat.
Proof.
  intros Hne Hw. unfold Client.sendFragmentedMessage.
  cbn [Client.sendFragments].
  destruct (Z.ltb_spec 0 (Z.of_nat (length data))) as [_|H];
    [|destruct data; [congruence|cbn in H; lia]].
  cbv zeta.
  destruct (generateMaskKey_ok c) as (key & c1 & Ek & Hk & Hi1 & Hw1 & Hwr1).
  rewrite (bind_Ok _ _ _ _ _ Ek). cbv beta.
  rewrite (bind_Ok _ _ c1 (Some ErrWrite) c1)
    by (apply Client_sendFrame_broken; [exact Hk|congruence]).
  cbv beta iota.
  eexists. exists c1. split; [reflexivity|]. split; [exact Hwr1|].
  revert Ek. unfold generateMaskKey, bind, rand_Read, ret.
  destruct (entropy c) as [|b0 [|b1 [|b2 [|b3 l]]]] eqn:He;
    cbn [length Nat.ltb Nat.leb firstn skipn]; intros E;
    injection E as _ <-; cbn [entropy set_entropy]; rewrite ?He;
    cbn [length]; lia.
Qed.

Lemma sendFragmentedMessage_write_failure_witness :
  exists e c',
    Client.sendFragmentedMessage (bytes_of "Hello") x01
                                 (mkConn [] [] true false [])
    = Ok (Some e) c' /\
    written c' = written (mkConn [] [] true false []) /\
    (length (entropy (mkConn [] [] true false [])) - length (entropy c') <= 4)%nat.
Proof.
  apply (sendFragmentedMessage_write_failure (bytes_of "Hello") x01
           (mkConn [] [] true false [])).
  - discriminate.
  - reflexivity.
Defined.

(** ** What the server writes *)

Lemma silent_ret {A} (a : A) : silent (ret a).
Proof. intros c a' c' H. injection H as _ <-. reflexivity. Qed.

Lemma silent_panic {A} msg : silent (@panic A msg).
Proof. intros c a c' H. discriminate H. Qed.

Lemma silent_bind {A B} (m : M A) (k : A -> M B) :
  silent m -> (forall a, silent (k a)) -> silent (bind m k).
Proof.
  intros Hm Hk c b c' H. unfold bind in H.
  destruct (m c) as [a c1| |] eqn:E; try discriminate H.
  rewrite (Hk _ _ _ _ H). exact (Hm _ _ _ E).
Qed.

Lemma ReadFull_silent n : silent (ReadFull n).
Proof.
  intros c a c' H. unfold ReadFull in H.
  destruct (n <=? 0); [injection H as _ <-; reflexivity|].
  destruct (inbound c) as [|b bs]; [injection H as _ <-; reflexivity|].
  destruct (_ <? n); injection H as _ <-; reflexivity.
Qed.

Lemma ReadFrame_silent : silent ReadFrame.
Proof.
  unfold ReadFrame.
  repeat first
    [ apply silent_ret | apply silent_panic | apply ReadFull_silent
    | apply silent_bind; [|intros ?]
    | match goal with
      | |- silent (match ?x with _ => _ end) => destruct x
      end ].
Qed.

Lemma sendFrame_broken payload c :
  wbroken c = true -> sendFrame payload c = Ok tt c.
Proof.
  intros Hw. unfold sendFrame, bind, Write, ret. cbv zeta.
  rewrite Hw. cbv beta iota. rewrite Hw. reflexivity.
Qed.

Section ServerOutput.

Variable json_Unmarshal_ok : list byte -> bool.

Lemma serveFrames_writes_replies (fuel : nat) : forall c c',
  serveFrames json_Unmarshal_ok fuel c = Ok tt c' ->
  exists k, written c' = written c ++ concat (repeat server_reply k).
Proof.
  induction fuel as [|n IH]; intros c c' H; [discriminate H|].
  cbn [serveFrames] in H. unfold bind at 1 in H.
  destruct (ReadFrame c) as [[frame|e] c1| |] eqn:E; try discriminate H.
  - rewrite <- (ReadFrame_silent _ _ _ E).
    assert (Hstop : forall d, ret tt c1 = Ok tt d ->
              exists k, written d = written c1 ++ concat (repeat server_reply k)).
    { intros d Hd. injection Hd as <-. exists 0%nat. cbn. rewrite app_nil_r.
      reflexivity. }
    repeat match type of H with
           | (if ?b then _ else _) _ = _ => destruct b
           end; try (apply Hstop; exact H); try (apply IH; exact H).
    unfold bind in H.
    destruct (wbroken c1) eqn:Hw.
    + rewrite (sendFrame_broken _ _ Hw) in H. apply IH. exact H.
    + rewrite (sendFrame_written responseJSON c1) in H;
        [| vm_compute; discriminate | exact Hw].
      destruct (IH _ _ H) as [k Hk]. exists (S k). rewrite Hk.
      cbn [written set_written repeat concat]. fold server_reply.
      rewrite <- !app_assoc. reflexivity.
  - injection H as <-. rewrite (ReadFrame_silent _ _ _ E).
    exists 0%nat. cbn. rewrite app_nil_r. reflexivity.
Qed.

(** X10.  Whatever request and frames arrive, a server session that returns has
    closed the connection and has written either nothing or the handshake
    response followed by copies of the one reply frame: no pong, no close frame,
    no echo of received data. *)
Theorem server_writes_only_replies (request : result http.Request)
        (c c' : Conn) :
  handleWebSocket json_Unmarshal_ok request c = Ok tt c' ->
  closed c' = true /\
  (written c' = written c \/
   exists h k,
     request = Val (http.mkRequest h) /\
     written c'
     = written c
       ++ bytes_of (handshakeResponse
                      (generateWebSocketAcceptKey
                         (http.Get h "Sec-WebSocket-Key")))
       ++ concat (repeat server_reply k)).
Proof.
  unfold handleWebSocket. unfold bind at 1. unfold Close.
  destruct request as [[h]|e]; cbn [http.Header_].
  - destruct (_ || _).
    + unfold ret. intros H. injection H as <-. split; [reflexivity|].
      left. reflexivity.
    + unfold bind at 1, Write. destruct (wbroken c) eqn:Hw.
      * unfold ret. intros H. injection H as <-. split; [reflexivity|].
        left. reflexivity.
      * destruct (serveFrames _ _ _) as [[] c1| |] eqn:E; try discriminate.
        intros H. injection H as <-. split; [reflexivity|].
        right. destruct (serveFrames_writes_replies _ _ _ E) as [k Hk].
        exists h, k. split; [reflexivity|].
        cbn [written set_closed]. rewrite Hk. cbn [written set_written].
        rewrite <- app_assoc. reflexivity.
  - unfold ret. intros H. injection H as <-. split; [reflexivity|].
    left. reflexivity.
Qed.

End ServerOutput.

Lemma server_writes_only_replies_witness :
  let c := set_inbound conn0 ([x81; x02] ++ bytes_of "{}" ++
                              [x89; x00] ++ [x81; x02] ++ bytes_of "{}") in
  let c' := set_closed
              (set_written conn0
                 (bytes_of (handshakeResponse "s3pPLMBiTxaQ9kYGzzhZRbK+xOo=")
                  ++ server_reply ++ server_reply)) in
  handleWebSocket (fun _ => true) (Val browser_upgrade) c = Ok tt c' /\
  closed c' = true /\
  (written c' = written c \/
   exists h k,
     Val browser_upgrade = Val (http.mkRequest h) /\
     written c'
     = written c
       ++ bytes_of (handshakeResponse
                      (generateWebSocketAcceptKey
                         (http.Get h "Sec-WebSocket-Key")))
       ++ concat (repeat server_reply k)).
Proof.
  intros c c'.
  assert (H : handleWebSocket (fun _ => true) (Val browser_upgrade) c
              = Ok tt c') by (vm_compute; reflexivity).
  split; [exact H|].
  exact (server_writes_only_replies (fun _ => true) (Val browser_upgrade)
                                    c c' H).
Defined.

(** ** The client handshake against this server *)

Lemma handshakeResponse_status (acceptKey : string) (tail : list byte) :
  exists more,
    bytes_of (handshakeResponse acceptKey) ++ tail
    = bytes_of "HTTP/1.1 101 Switching Protocols" ++ more.
Proof. eexists. cbn. reflexivity. Qed.

(** X20.  [Handshake] accepts the response this server writes whatever accept
    key it carries: the key is never compared with the one sent. The one [Read]
    takes up to 1024 bytes, so frames that arrived with the response are
    consumed with it. *)
Theorem Handshake_accepts_any_accept_key (c : Conn) (key rest : list byte)
        (acceptKey : string) (tail : list byte) :
  entropy c = key ++ rest -> length key = 16%nat -> wbroken c = false ->
  inbound c = bytes_of (handshakeResponse acceptKey) ++ tail ->
  Client.Handshake c
  = Ok None
       (mkConn (skipn 1024 (inbound c))
               (written c ++ bytes_of (Client.handshakeRequest
                                         (base64.EncodeToString key)))
               false (closed c) rest).
Proof.
  intros He Hk Hw Hin.
  destruct (handshakeResponse_status acceptKey tail) as [more Hmore].
  rewrite Hmore in Hin.
  rewrite (Handshake_reads c key rest He Hk Hw);
    [| rewrite Hin; discriminate].
  cbv zeta.
  assert (H32 : firstn 32 (firstn 1024 (inbound c))
                = bytes_of "HTTP/1.1 101 Switching Protocols").
  { rewrite firstn_firstn. change (Nat.min 32 1024) with 32%nat.
    rewrite Hin. reflexivity. }
  assert (Hlen : (32 <= length (firstn 1024 (inbound c)))%nat).
  { rewrite length_firstn, Hin, length_app.
    change (length (bytes_of "HTTP/1.1 101 Switching Protocols")) with 32%nat.
    apply Nat.min_glb; [|lia]. apply Nat.leb_le. vm_compute. reflexivity. }
  destruct (Nat.ltb_spec (length (firstn 1024 (inbound c))) 32) as [Hlt|_];
    [lia|].
  rewrite H32. reflexivity.
Qed.

Lemma Handshake_accepts_any_accept_key_witness :
  Client.Handshake
    (mkConn (bytes_of (handshakeResponse "not the accept key") ++ [x88; x00])
            [] false false (repeat x07 16))
  = Ok None
       (mkConn []
               (bytes_of (Client.handshakeRequest "BwcHBwcHBwcHBwcHBwcHBw=="))
               false false []).
Proof.
  exact (Handshake_accepts_any_accept_key
           (mkConn (bytes_of (handshakeResponse "not the accept key")
                    ++ [x88; x00])
                   [] false false (repeat x07 16))
           (repeat x07 16) [] "not the accept key" [x88; x00]
           eq_refl eq_refl eq_refl eq_refl).
Defined.

(** ** The mask key without random bytes *)





(** ** The line echo *)

Lemma cut_line_terminated (l rest : list byte) :
  no_newline l ->
  Transport.cut_line (l ++ x0a :: rest) = Some (l ++ [x0a], rest).
Proof.
  unfold no_newline. induction l as [|b l IH]; intros H; cbn [app Transport.cut_line].
  - reflexivity.
  - destruct (Byte.eqb b x0a) eqn:E.
    + exfalso. apply H. left. symmetry. apply Byte.byte_dec_bl. exact E.
    + rewrite IH; [reflexivity|]. intros Hin. apply H. right. exact Hin.
Qed.

Lemma cut_line_unterminated (l : list byte) :
  no_newline l -> Transport.cut_line l = None.
Proof.
  unfold no_newline. induction l as [|b l IH]; intros H; cbn [Transport.cut_line].
  - reflexivity.
  - destruct (Byte.eqb b x0a) eqn:E.
    + exfalso. apply H. left. symmetry. apply Byte.byte_dec_bl. exact E.
    + rewrite IH; [reflexivity|]. intros Hin. apply H. right. exact Hin.
Qed.

Lemma echoLines_lines (lines : list (list byte)) (tail : list byte) :
  Forall no_newline lines -> no_newline tail ->
  forall fuel c,
    wbroken c = false ->
    inbound c = terminated lines ++ tail ->
    (length lines < fuel)%nat ->
    Transport.echoLines fuel c
    = Ok tt (set_written (set_inbound c []) (written c ++ echoed lines)).
Proof.
  intros Hlines Htail.
  induction Hlines as [|l lines Hl Hlines IH]; intros fuel c Hw Hin Hfuel;
    (destruct fuel as [|n]; [cbn in Hfuel; lia|]); cbn [Transport.echoLines].
  - cbn [terminated map concat app] in Hin. unfold echoed. cbn [map concat].
    rewrite app_nil_r. unfold bind, Transport.ReadString.
    rewrite Hin, (cut_line_unterminated tail Htail). cbn [snd].
    unfold ret. destruct c; reflexivity.
  - unfold terminated in Hin. cbn [map concat] in Hin.
    rewrite <- !app_assoc in Hin. cbn [app] in Hin.
    unfold bind at 1. unfold Transport.ReadString.
    rewrite Hin, (cut_line_terminated l _ Hl). cbn [snd fst].
    cbv beta iota.
    rewrite (bind_Ok _ _ _ _ _
               (Write_ok _ (set_inbound c (terminated lines ++ tail)) Hw)).
    rewrite (IH n); [| exact Hw | reflexivity | cbn in Hfuel; lia].
    unfold echoed. cbn [map concat written set_written set_inbound inbound
                        wbroken closed entropy].
    rewrite <- !app_assoc. reflexivity.
Qed.

(** X24.  The echo handler answers every complete line, in order, with [Echo: ]
    and the line; bytes after the last newline are never answered; then it
    closes the connection. *)
Theorem handleConnection_echoes_lines (lines : list (list byte))
        (tail : list byte) (c : Conn) :
  Forall no_newline lines -> no_newline tail ->
  wbroken c = false ->
  inbound c = terminated lines ++ tail ->
  Transport.handleConnection c
  = Ok tt (set_closed
             (set_written (set_inbound c []) (written c ++ echoed lines))).
Proof.
  intros Hl Ht Hw Hin. unfold Transport.handleConnection.
  assert (Hfuel : (length lines < S (length (inbound c)))%nat).
  { rewrite Hin, length_app.
    assert (length lines <= length (terminated lines))%nat.
    { clear. unfold terminated.
      induction lines as [|l ls IH]; cbn [map concat length].
      - lia.
      - rewrite !length_app. cbn [length]. lia. }
    lia. }
  rewrite (bind_Ok _ _ _ _ _
             (echoLines_lines lines tail Hl Ht (S (length (inbound c))) c
                              Hw Hin Hfuel)).
  reflexivity.
Qed.

Lemma handleConnection_echoes_lines_witness :
  Transport.handleConnection
    (set_inbound conn0 (bytes_of "hi" ++ [x0a] ++ bytes_of "you" ++ [x0a]
                        ++ bytes_of "lost"))
  = Ok tt (set_closed
             (set_written conn0
                (bytes_of "Echo: hi" ++ [x0a] ++ bytes_of "Echo: you" ++ [x0a]))).
Proof.
  refine (handleConnection_echoes_lines [bytes_of "hi"; bytes_of "you"]
            (bytes_of "lost") (set_inbound conn0 _) _ _ _ _);
    try reflexivity.
  - repeat constructor; unfold no_newline; cbn; intuition discriminate.
  - unfold no_newline; cbn; intuition discriminate.
Defined.

(** ** Examples for the encoder's properties *)

(** A payload of 65536 bytes goes out as some run of fragments. *)
Lemma fragmentation_policy_witness :
  exists frames c',
    Client.sendFragmentedMessage big_payload x02 conn0 = Ok None c' /\
    written c' = written conn0 ++ concat (map wire frames) /\
    fragmented true x02 big_payload frames.
Proof.
  exact (fragmentation_policy big_payload x02 conn0 eq_refl eq_refl).
Defined.

(** A frame that says it is not masked goes out masked. *)
Lemma Client_sendFrame_sets_mask_bit_witness :
  let f := mkFrame true x01 false 2 [x01; x02; x03; x04] (bytes_of "hi") in
  let c' := set_written conn0
              [x81; x82; x01; x02; x03; x04;
               byte.xor "h" x01; byte.xor "i" x02] in
  Client.sendFrame f conn0 = Ok None c' /\
  exists out, written c' = written conn0 ++ out /\
              bit7 (nth 1 out x00) = true.
Proof.
  intros f c'.
  assert (H : Client.sendFrame f conn0 = Ok None c') by reflexivity.
  split; [exact H|].
  exact (Client_sendFrame_sets_mask_bit f conn0 c' H).
Defined.
